(** * Open-ocean demo: simulation core, LOD grid and planar reflection

    A shallow embedding of the JavaScript classes [OceanFFT], [OceanLODGrid],
    [OceanSystem] and [PlanarReflectionPass] and of the phase-evolution
    fragment shader, followed by the properties proved about them.

    Numbers.  JavaScript numbers and GLSL floats are idealised as exact
    numbers: rationals ([Q]) wherever the code only uses field operations,
    [Math.floor], [Math.round], [Math.min], [Math.max] and comparisons, and
    reals ([R]) where square roots, [PI] or trigonometric functions enter
    (wind vector, shader, reflection geometry).  [NaN], infinities and
    rounding error are outside the model.

    Memory.  An allocation that the language permits succeeds; one it
    forbids throws, as the language says.  Running out of memory is outside
    the model.

    Effects.  A method that mutates [this] is a function from the object's
    state to its new state; a method that can throw returns the state reached
    together with a completion.  GPU passes are recorded in the order they
    are submitted.  Objects created with [new] carry an identity, so that
    "the same object" can be told from "an equal one".

    Part I embeds the sources, Part II fixes the vocabulary of the
    statements and the example inputs, Part III proves the properties. *)

From Stdlib Require Import ZArith QArith Qround Qminmax Qabs.
From Stdlib Require Import Reals Qreals Lra Lia Psatz.
From Stdlib Require Import List String Bool Permutation.
Import ListNotations.

(* ================================================================== *)
(** * Part I: the embedding *)
(* ================================================================== *)

(** ** JavaScript primitives used by the sources *)

Module JS.

(** What the sources can throw: the two [Error]s they construct, with the
    value interpolated in the message kept as data, and the [RangeError] of
    a typed-array allocation. *)
Inductive Exn : Type :=
| ErrorPowerOfTwo (value : Q)   (* `FFT resolution must be power of two, got ${value}` *)
| ErrorLodLevels                (* 'Ocean LOD requires at least 2 level sizes.' *)
| RangeError (length : Z).      (* [new Float32Array(length)] refused *)

(** The message of an [Error] of the sources (that of a [RangeError] is the
    engine's own). *)
Definition message (e : Exn) : option string :=
  match e with
  | ErrorPowerOfTwo _ => Some "FFT resolution must be power of two, got "%string
  | ErrorLodLevels => Some "Ocean LOD requires at least 2 level sizes."%string
  | RangeError _ => None
  end.

(** Completion of a call: it returned a value or threw. *)
Inductive completion (A : Type) : Type :=
| Normal (a : A)
| Throw (e : Exn).
Arguments Normal {A} a.
Arguments Throw {A} e.

Definition threw {A : Type} (c : completion A) : bool :=
  match c with Normal _ => false | Throw _ => true end.

(** [ToInt32]: the conversion the bitwise operators apply to their operands. *)
Definition to_int32 (z : Z) : Z :=
  ((z + 2 ^ 31) mod 2 ^ 32 - 2 ^ 31)%Z.

(** [a & b] on integer-valued numbers. *)
Definition bitand (a b : Z) : Z := Z.land (to_int32 a) (to_int32 b).

(** [Math.floor], [Math.round] (half-way cases go up), [Math.max], [Math.min]. *)
Definition floor (x : Q) : Z := Qfloor x.
Definition round (x : Q) : Z := Qfloor (x + (1 # 2))%Q.
Definition max (a b : Q) : Q := Qmax a b.
Definition min (a b : Q) : Q := Qmin a b.

(** [new Float32Array(length)] for an integer [length], returning the
    number of elements.  [ToIndex] refuses a length outside [0, 2^53 - 1]
    and [CreateByteDataBlock] a size of more than [2^53 - 1] bytes (four per
    element), each with a [RangeError].  Within these limits of the language
    the allocation is taken to succeed: how much memory the machine has is
    not part of the model. *)
Definition MAX_SAFE_INTEGER : Z := (2 ^ 53 - 1)%Z.

Definition Float32Array (length : Z) : completion Z :=
  if (length <? 0)%Z || (MAX_SAFE_INTEGER <? length)%Z
     || (MAX_SAFE_INTEGER <? 4 * length)%Z
  then Throw (RangeError length)
  else Normal length.

(** [value !== undefined ? value : defaultValue]; [None] is [undefined]. *)
Definition optionalParameter {A : Type} (value : option A) (defaultValue : A) : A :=
  match value with Some v => v | None => defaultValue end.

End JS.

(** ** simulation/OceanFFT.js *)

Module OceanFFT.
Import JS.

(** [ensurePowerOfTwo]: floor, clamp to at least 2, then the bit test. *)
Definition ensurePowerOfTwo (value : Q) : completion Z :=
  let integerValue := Z.max 2 (floor value) in
  if negb (bitand integerValue (integerValue - 1) =? 0)%Z
  then Throw (ErrorPowerOfTwo value)
  else Normal integerValue.

(** The [options] object of the constructor; an absent key is [None]. *)
Record Options : Type := {
  opt_resolution : option Q;
  opt_size : option Q;
  opt_choppiness : option Q;
  opt_windSpeed : option Q;
  opt_windDirection : option R;
  opt_useHalfFloat : option bool
}.

(** The render targets and the seed texture the object owns. *)
Inductive Buffer : Type :=
| initialSpectrumFramebuffer
| spectrumFramebuffer
| pingPhaseFramebuffer
| pongPhaseFramebuffer
| pingTransformFramebuffer
| pongTransformFramebuffer
| displacementMapFramebuffer
| normalMapFramebuffer
| pingPhaseTexture.            (* the seed [DataTexture] *)

Definition Buffer_eqb (a b : Buffer) : bool :=
  match a, b with
  | initialSpectrumFramebuffer, initialSpectrumFramebuffer
  | spectrumFramebuffer, spectrumFramebuffer
  | pingPhaseFramebuffer, pingPhaseFramebuffer
  | pongPhaseFramebuffer, pongPhaseFramebuffer
  | pingTransformFramebuffer, pingTransformFramebuffer
  | pongTransformFramebuffer, pongTransformFramebuffer
  | displacementMapFramebuffer, displacementMapFramebuffer
  | normalMapFramebuffer, normalMapFramebuffer
  | pingPhaseTexture, pingPhaseTexture => true
  | _, _ => false
  end.

(** The shader materials, named as the fields that hold them. *)
Inductive Material : Type :=
| materialInitialSpectrum
| materialPhase
| materialSpectrum
| materialOceanHorizontal
| materialOceanVertical
| materialNormal.

(** One [renderer.render] call of the simulation: the override material, the
    textures its sampler uniforms are bound to, the numeric uniform that
    varies per pass, and the render target bound at that moment. *)
Record Pass : Type := {
  pass_material : Material;
  pass_reads : list Buffer;
  pass_subtransformSize : option Z;
  pass_deltaTime : option Q;
  pass_cleared : bool;          (* [renderer.clear()] ran on the target first *)
  pass_target : Buffer
}.

(** The fields of an [OceanFFT] instance that the methods read or write. *)
Record t : Type := {
  resolution : Z;
  size : Q;
  choppiness : Q;
  windSpeed : Q;
  windDirection : R;
  windVector : R * R;
  deltaTime : Q;
  useHalfFloat : bool;
  initialized : bool;
  needsSpectrumInit : bool;
  pingPhase : bool
}.

Definition setWind (speed : Q) (directionRadians : R) (o : t) : t :=
  let ws := max (1 # 100)%Q speed in
  {| resolution := resolution o; size := size o; choppiness := choppiness o;
     windSpeed := ws;
     windDirection := directionRadians;
     windVector := ((cos directionRadians * Q2R ws)%R, (sin directionRadians * Q2R ws)%R);
     deltaTime := deltaTime o; useHalfFloat := useHalfFloat o;
     initialized := initialized o;
     needsSpectrumInit := true;
     pingPhase := pingPhase o |}.

Definition setSize (sz : Q) (o : t) : t :=
  {| resolution := resolution o;
     size := max 32%Q sz;
     choppiness := choppiness o; windSpeed := windSpeed o;
     windDirection := windDirection o; windVector := windVector o;
     deltaTime := deltaTime o; useHalfFloat := useHalfFloat o;
     initialized := initialized o;
     needsSpectrumInit := true;
     pingPhase := pingPhase o |}.

Definition setChoppiness (c : Q) (o : t) : t :=
  {| resolution := resolution o; size := size o;
     choppiness := max 0%Q c;
     windSpeed := windSpeed o;
     windDirection := windDirection o; windVector := windVector o;
     deltaTime := deltaTime o; useHalfFloat := useHalfFloat o;
     initialized := initialized o;
     needsSpectrumInit := needsSpectrumInit o;
     pingPhase := pingPhase o |}.

(** [#generateSeedPhaseTexture()], as far as it can fail: the array of
    [resolution * resolution * 4] floats is allocated first.  (The product
    is exact for the resolutions that reach this point, powers of two below
    [2^31].  What the loop stores in the array is [FFTShaders.seedPhase]
    below.) *)
Definition generateSeedPhaseTexture (o : t) : completion unit :=
  match Float32Array (resolution o * resolution o * 4) with
  | Throw e => Throw e
  | Normal _ => Normal tt
  end.

(** [new OceanFFT(renderer, options)].  Two statements can throw: the first
    use of [ensurePowerOfTwo], and at the very end the allocation in
    [#generateSeedPhaseTexture]; [size] is stored as given. *)
Definition constructor (options : Options) : completion t :=
  match ensurePowerOfTwo (optionalParameter (opt_resolution options) 256%Q) with
  | Throw e => Throw e
  | Normal res =>
      let o :=
        {| resolution := res;
           size := optionalParameter (opt_size options) 1000%Q;
           choppiness := optionalParameter (opt_choppiness options) (16 # 10)%Q;
           windSpeed := optionalParameter (opt_windSpeed options) 12%Q;
           windDirection := optionalParameter (opt_windDirection options) 0%R;
           windVector := (0%R, 0%R);
           deltaTime := (1 # 60)%Q;
           useHalfFloat := optionalParameter (opt_useHalfFloat options) true;
           initialized := false;
           needsSpectrumInit := true;
           pingPhase := true |} in
      let o1 := setWind (windSpeed o) (windDirection o) o in
      match generateSeedPhaseTexture o1 with
      | Throw e => Throw e
      | Normal _ => Normal o1
      end
  end.

(** Field updates of the methods below. *)
Definition set_deltaTime (v : Q) (o : t) : t :=
  {| resolution := resolution o; size := size o; choppiness := choppiness o;
     windSpeed := windSpeed o; windDirection := windDirection o;
     windVector := windVector o; deltaTime := v; useHalfFloat := useHalfFloat o;
     initialized := initialized o; needsSpectrumInit := needsSpectrumInit o;
     pingPhase := pingPhase o |}.

Definition set_needsSpectrumInit (v : bool) (o : t) : t :=
  {| resolution := resolution o; size := size o; choppiness := choppiness o;
     windSpeed := windSpeed o; windDirection := windDirection o;
     windVector := windVector o; deltaTime := deltaTime o;
     useHalfFloat := useHalfFloat o;
     initialized := initialized o; needsSpectrumInit := v;
     pingPhase := pingPhase o |}.

Definition set_initialized (v : bool) (o : t) : t :=
  {| resolution := resolution o; size := size o; choppiness := choppiness o;
     windSpeed := windSpeed o; windDirection := windDirection o;
     windVector := windVector o; deltaTime := deltaTime o;
     useHalfFloat := useHalfFloat o;
     initialized := v; needsSpectrumInit := needsSpectrumInit o;
     pingPhase := pingPhase o |}.

Definition set_pingPhase (v : bool) (o : t) : t :=
  {| resolution := resolution o; size := size o; choppiness := choppiness o;
     windSpeed := windSpeed o; windDirection := windDirection o;
     windVector := windVector o; deltaTime := deltaTime o;
     useHalfFloat := useHalfFloat o;
     initialized := initialized o; needsSpectrumInit := needsSpectrumInit o;
     pingPhase := v |}.

(** The private render methods: each returns the new object state and the
    passes it submitted. *)
Definition renderInitialSpectrum (o : t) : t * list Pass :=
  (set_needsSpectrumInit false o,
   [ {| pass_material := materialInitialSpectrum;
        pass_reads := [];
        pass_subtransformSize := None;
        pass_deltaTime := None;
        pass_cleared := true;
        pass_target := initialSpectrumFramebuffer |} ]).

Definition renderWavePhase (o : t) : t * list Pass :=
  let u_phases :=
    if negb (initialized o) then pingPhaseTexture
    else if pingPhase o then pingPhaseFramebuffer else pongPhaseFramebuffer in
  let target :=
    if pingPhase o then pongPhaseFramebuffer else pingPhaseFramebuffer in
  (set_pingPhase (negb (pingPhase o)) (set_initialized true o),
   [ {| pass_material := materialPhase;
        pass_reads := [u_phases];
        pass_subtransformSize := None;
        pass_deltaTime := Some (deltaTime o);
        pass_cleared := false;
        pass_target := target |} ]).

Definition renderSpectrum (o : t) : t * list Pass :=
  (o,
   [ {| pass_material := materialSpectrum;
        pass_reads :=
          [ initialSpectrumFramebuffer;
            if pingPhase o then pingPhaseFramebuffer else pongPhaseFramebuffer ];
        pass_subtransformSize := None;
        pass_deltaTime := None;
        pass_cleared := false;
        pass_target := spectrumFramebuffer |} ]).

(** [Math.log2(this.resolution)]; exact because the constructor only admits
    powers of two. *)
Definition iterations (o : t) : nat := Z.to_nat (Z.log2 (resolution o)).

Definition subtransformSize (iters i : nat) : Z :=
  (2 ^ Z.of_nat ((i mod iters) + 1))%Z.

(** Body of the first loop of [#renderSpectrumFFT] at index [i]. *)
Definition horizontalPass (iters i : nat) : Pass :=
  let '(input, target) :=
    if (i =? 0)%nat then (spectrumFramebuffer, pingTransformFramebuffer)
    else if (i mod 2 =? 1)%nat then (pingTransformFramebuffer, pongTransformFramebuffer)
    else (pongTransformFramebuffer, pingTransformFramebuffer) in
  {| pass_material := materialOceanHorizontal;
     pass_reads := [input];
     pass_subtransformSize := Some (subtransformSize iters i);
     pass_deltaTime := None;
     pass_cleared := false;
     pass_target := target |}.

(** Body of the second loop at index [i]. *)
Definition verticalPass (iters i : nat) : Pass :=
  let '(input, target) :=
    if (i =? iters * 2 - 1)%nat then
      (if (iters mod 2 =? 0)%nat then pingTransformFramebuffer
       else pongTransformFramebuffer,
       displacementMapFramebuffer)
    else if (i mod 2 =? 1)%nat then (pingTransformFramebuffer, pongTransformFramebuffer)
    else (pongTransformFramebuffer, pingTransformFramebuffer) in
  {| pass_material := materialOceanVertical;
     pass_reads := [input];
     pass_subtransformSize := Some (subtransformSize iters i);
     pass_deltaTime := None;
     pass_cleared := false;
     pass_target := target |}.

(** [for (i = 0; i < iterations; ...)] then
    [for (i = iterations; i < iterations * 2; ...)]. *)
Definition renderSpectrumFFT (o : t) : t * list Pass :=
  let iters := iterations o in
  (o, List.map (horizontalPass iters) (seq 0 iters)
      ++ List.map (verticalPass iters) (seq iters iters)).

Definition renderNormalMap (o : t) : t * list Pass :=
  (o,
   [ {| pass_material := materialNormal;
        pass_reads := [displacementMapFramebuffer];
        pass_subtransformSize := None;
        pass_deltaTime := None;
        pass_cleared := true;
        pass_target := normalMapFramebuffer |} ]).

(** Sequencing of two render methods, concatenating their passes. *)
Definition andThen (f g : t -> t * list Pass) (o : t) : t * list Pass :=
  let '(o1, ps1) := f o in
  let '(o2, ps2) := g o1 in
  (o2, ps1 ++ ps2).

(** [update(deltaTime)].  The render target bound on entry is saved and
    bound again on exit, so only the object and the submitted passes are
    returned. *)
Definition update (dt : Q) (o : t) : t * list Pass :=
  let o0 := set_deltaTime (min (1 # 10)%Q (max (1 # 240)%Q dt)) o in
  let pre := if needsSpectrumInit o0 then renderInitialSpectrum else (fun o => (o, [])) in
  andThen pre
    (andThen renderWavePhase
       (andThen renderSpectrum
          (andThen renderSpectrumFFT renderNormalMap))) o0.

End OceanFFT.

(** ** simulation/fftShaders: the [phase] fragment shader *)

Module FFTShaders.
Local Open Scope R_scope.

Definition G : R := 981 / 100.
Definition KM : R := 370.

(** GLSL [floor], [mod] and [length] on exact reals. *)
Definition glsl_floor (x : R) : R := IZR (Int_part x).
Definition glsl_mod (x y : R) : R := x - y * glsl_floor (x / y).
Definition glsl_length (v : R * R) : R := sqrt (fst v * fst v + snd v * snd v).

Definition omega (k : R) : R := sqrt (G * k * (1 + k * k / (KM * KM))).

(** A one-channel texture addressed by texel. *)
Definition Field : Type := Z -> Z -> R.

(** Signed frequency index of a fragment coordinate. *)
Definition signedIndex (u_resolution c : R) : R :=
  if Rlt_dec c (u_resolution * (1 / 2)) then c else c - u_resolution.

Definition waveVector (u_resolution u_size : R) (x y : Z) : R * R :=
  let n := signedIndex u_resolution (IZR x) in
  let m := signedIndex u_resolution (IZR y) in
  (2 * PI * n / u_size, 2 * PI * m / u_size).

(** [main] of the phase shader at the fragment of texel [(x, y)]:
    [gl_FragCoord.xy - 0.5] is [(x, y)] and [vUV] addresses the same texel. *)
Definition phase_main (u_phases : Field) (u_deltaTime u_resolution u_size : R)
  (x y : Z) : R :=
  let phase := u_phases x y in
  let deltaPhase := omega (glsl_length (waveVector u_resolution u_size x y)) * u_deltaTime in
  glsl_mod (phase + deltaPhase) (2 * PI).

(** One full-screen pass of the shader. *)
Definition phase_pass (u_deltaTime u_resolution u_size : R) (u_phases : Field) : Field :=
  fun x y => phase_main u_phases u_deltaTime u_resolution u_size x y.

(** The seed texture of [#generateSeedPhaseTexture]: [random x y] stands for
    the value [Math.random()] returned for that texel. *)
Definition seedPhase (random : Z -> Z -> R) : Field :=
  fun x y => random x y * PI * 2.

(** The phase field after the passes with the given time steps, oldest first. *)
Fixpoint evolve (u_resolution u_size : R) (steps : list R) (phases : Field) : Field :=
  match steps with
  | [] => phases
  | dt :: rest => evolve u_resolution u_size rest (phase_pass dt u_resolution u_size phases)
  end.

End FFTShaders.

(** ** The phase textures on the GPU *)

(** What the phase textures hold, and what a submitted pass does to them.
    Only a pass drawn with the phase material writes a phase texture. *)
Module PhaseMemory.

Definition t : Type := OceanFFT.Buffer -> FFTShaders.Field.

Definition write (b : OceanFFT.Buffer) (f : FFTShaders.Field) (mem : t) : t :=
  fun b' => if OceanFFT.Buffer_eqb b' b then f else mem b'.

(** One pass, with the uniforms [u_resolution] and [u_size] that
    [#renderWavePhase] uploads from [this.resolution] and [this.size]. *)
Definition runPass (u_resolution u_size : R) (p : OceanFFT.Pass) (mem : t) : t :=
  match OceanFFT.pass_material p, OceanFFT.pass_reads p, OceanFFT.pass_deltaTime p with
  | OceanFFT.materialPhase, [u_phases], Some u_deltaTime =>
      write (OceanFFT.pass_target p)
        (FFTShaders.phase_pass (Q2R u_deltaTime) u_resolution u_size (mem u_phases))
        mem
  | _, _, _ => mem
  end.

Fixpoint runPasses (u_resolution u_size : R) (ps : list OceanFFT.Pass) (mem : t) : t :=
  match ps with
  | [] => mem
  | p :: rest => runPasses u_resolution u_size rest (runPass u_resolution u_size p mem)
  end.

(** One call of [update] on the object and the textures. *)
Definition frame (dt : Q) (st : OceanFFT.t * t) : OceanFFT.t * t :=
  let '(o, mem) := st in
  let '(o', ps) := OceanFFT.update dt o in
  (o', runPasses (IZR (OceanFFT.resolution o)) (Q2R (OceanFFT.size o)) ps mem).

(** Successive calls, oldest time step first. *)
Fixpoint frames (dts : list Q) (st : OceanFFT.t * t) : OceanFFT.t * t :=
  match dts with
  | [] => st
  | dt :: rest => frames rest (frame dt st)
  end.

(** The texture the next phase pass (and, after an update, the spectrum
    pass) samples: the seed before the first update, then the buffer the
    flag [pingPhase] selects. *)
Definition current (st : OceanFFT.t * t) : FFTShaders.Field :=
  let '(o, mem) := st in
  if negb (OceanFFT.initialized o) then mem OceanFFT.pingPhaseTexture
  else if OceanFFT.pingPhase o then mem OceanFFT.pingPhaseFramebuffer
       else mem OceanFFT.pongPhaseFramebuffer.

End PhaseMemory.

(** ** render/OceanLODGrid *)

Module OceanLODGrid.
Import JS.
Local Open Scope Q_scope.

(** A [Vector3] with rational components. *)
Record Vec3 : Type := { vx : Q; vy : Q; vz : Q }.

(** Identity of a heap object handed in from outside (the shared material). *)
Definition Ref : Type := nat.

(** What [createPatch] fixes of a mesh: the plane geometry's extent and
    segment counts, the mesh position, and its draw-order fields. *)
Record Mesh : Type := {
  width : Q;
  height : Q;
  widthSegments : Z;
  heightSegments : Z;
  position : Vec3;
  frustumCulled : bool;
  renderOrder : Z;
  mesh_material : Ref
}.

Definition clampSegments (value : Q) : Z :=
  Z.min 512 (Z.max 2 (round value)).

Definition createPatch (w h segX segY offsetX offsetZ : Q) (levelIndex : nat)
  (material : Ref) : Mesh :=
  {| width := w;
     height := h;
     widthSegments := clampSegments segX;
     heightSegments := clampSegments segY;
     position := {| vx := offsetX;
                    vy := - inject_Z (Z.of_nat levelIndex) * (45 # 10000);
                    vz := offsetZ |};
     frustumCulled := false;
     renderOrder := (1000 - Z.of_nat levelIndex)%Z;
     mesh_material := material |}.

(** The instance: the [Group]'s transform and children, and the own fields.
    [levels] is [None] when the argument is not an array. *)
Record t : Type := {
  group_position : Vec3;
  group_scale : Vec3;
  group_children : list Mesh;
  material : Ref;
  levels : option (list Q);
  baseCellSize : Q;
  ringOverlap : Q;
  snapSize : Q;
  meshes : list Mesh
}.

Definition addMesh (mesh : Mesh) (g : t) : t :=
  {| group_position := group_position g;
     group_scale := group_scale g;
     group_children := group_children g ++ [mesh];
     material := material g;
     levels := levels g;
     baseCellSize := baseCellSize g;
     ringOverlap := ringOverlap g;
     snapSize := snapSize g;
     meshes := meshes g ++ [mesh] |}.

(** The four strips that one iteration [i] of the loop in [#build] adds,
    for [inner = levels[i - 1]] and [outer = levels[i]].  The quotients by
    the cell size feed the segment counts only; for a zero cell size
    JavaScript yields an infinity or [NaN] there, where [Q] yields 0, and no
    statement below depends on a segment count. *)
Definition ring (i : nat) (inner outer : Q) (g : t) : t :=
  let ringWidth := (outer - inner) * (1 # 2) in
  let cellSize := baseCellSize g * inject_Z (2 ^ Z.of_nat i) in
  let overlap := min (ringWidth * (1 # 4)) (ringOverlap g * cellSize) in
  let longSegments := outer / cellSize in
  let shortSegments := (ringWidth + overlap * 2) / cellSize in
  let innerSegments := inner / cellSize in
  let stripHeight := ringWidth + overlap * 2 in
  let stripWidth := outer + overlap * 2 in
  let innerStrip := inner + overlap * 2 in
  let distanceFromCenter := inner * (1 # 2) + ringWidth * (1 # 2) in
  let m := material g in
  let g1 := addMesh (createPatch stripWidth stripHeight longSegments shortSegments
                       0 (- distanceFromCenter) i m) g in
  let g2 := addMesh (createPatch stripWidth stripHeight longSegments shortSegments
                       0 distanceFromCenter i m) g1 in
  let g3 := addMesh (createPatch stripHeight innerStrip shortSegments innerSegments
                       (- distanceFromCenter) 0 i m) g2 in
  addMesh (createPatch stripHeight innerStrip shortSegments innerSegments
             distanceFromCenter 0 i m) g3.

(** [for (let i = 1; i < levels.length; i += 1)], entered at index [i] with
    [inner = levels[i - 1]] and [rest] the entries from index [i] on. *)
Fixpoint rings (i : nat) (inner : Q) (rest : list Q) (g : t) : t :=
  match rest with
  | [] => g
  | outer :: rest' => rings (S i) outer rest' (ring i inner outer g)
  end.

(** [#build]: the state reached and how the call completed. *)
Definition build (g : t) : t * completion unit :=
  match levels g with
  | None => (g, Throw ErrorLodLevels)
  | Some ls =>
      if (List.length ls <? 2)%nat then (g, Throw ErrorLodLevels)
      else
        match ls with
        | [] => (g, Throw ErrorLodLevels)
        | centerSize :: rest =>
            let centerSegments := centerSize / baseCellSize g in
            let g1 :=
              addMesh (createPatch centerSize centerSize centerSegments centerSegments
                         0 0 0 (material g)) g in
            (rings 1 centerSize rest g1, Normal tt)
        end
  end.

(** The constructor's argument object; the last two keys have defaults. *)
Record Args : Type := {
  arg_material : Ref;
  arg_levels : option (list Q);
  arg_baseCellSize : option Q;
  arg_ringOverlap : option Q
}.

(** The fields as the constructor sets them before it calls [#build]; a new
    [Group] sits at the origin with unit scale. *)
Definition init (a : Args) : t :=
  let bcs := optionalParameter (arg_baseCellSize a) 1 in
  {| group_position := {| vx := 0; vy := 0; vz := 0 |};
     group_scale := {| vx := 1; vy := 1; vz := 1 |};
     group_children := [];
     material := arg_material a;
     levels := arg_levels a;
     baseCellSize := bcs;
     ringOverlap := optionalParameter (arg_ringOverlap a) (1 # 2);
     snapSize := bcs;
     meshes := [] |}.

(** [new OceanLODGrid({...})]: the object exists for the caller only when
    [#build] returns. *)
Definition constructor (a : Args) : completion t :=
  match build (init a) with
  | (g, Normal _) => Normal g
  | (_, Throw e) => Throw e
  end.

(** [update(cameraPosition)]. *)
Definition update (cameraPosition : Vec3) (g : t) : t :=
  {| group_position :=
       {| vx := inject_Z (floor (vx cameraPosition / snapSize g)) * snapSize g;
          vy := vy (group_position g);
          vz := inject_Z (floor (vz cameraPosition / snapSize g)) * snapSize g |};
     group_scale := group_scale g;
     group_children := group_children g;
     material := material g;
     levels := levels g;
     baseCellSize := baseCellSize g;
     ringOverlap := ringOverlap g;
     snapSize := snapSize g;
     meshes := meshes g |}.

(** [setLodScale(scale)]. *)
Definition setLodScale (scale : Q) (g : t) : t :=
  let clamped := max (1 # 2) (min (5 # 2) scale) in
  {| group_position := group_position g;
     group_scale := {| vx := clamped; vy := 1; vz := clamped |};
     group_children := group_children g;
     material := material g;
     levels := levels g;
     baseCellSize := baseCellSize g;
     ringOverlap := ringOverlap g;
     snapSize := snapSize g;
     meshes := meshes g |}.

(** [dispose()]: every mesh leaves the group (its children are exactly
    [meshes]), then the list is emptied. *)
Definition dispose (g : t) : t :=
  {| group_position := group_position g;
     group_scale := group_scale g;
     group_children := [];
     material := material g;
     levels := levels g;
     baseCellSize := baseCellSize g;
     ringOverlap := ringOverlap g;
     snapSize := snapSize g;
     meshes := [] |}.

End OceanLODGrid.

(** ** OceanSystem *)

Module OceanSystem.
Import JS.

(** A quality object as the code reads it: each property access yields the
    value or [undefined] ([None]). *)
Record Quality : Type := {
  fftResolution : option Q;
  simulationSize : option Q;
  levelSizes : option (list Q);
  baseCellSize : option Q;
  ringOverlap : option Q;
  displacementScale : option Q
}.

Definition performance : Quality :=
  {| fftResolution := Some 128%Q;
     simulationSize := Some 840%Q;
     levelSizes := Some [224; 448; 896; 1792; 3584; 7168; 14336]%Q;
     baseCellSize := Some (175 # 100)%Q;
     ringOverlap := Some (4 # 10)%Q;
     displacementScale := Some (95 # 100)%Q |}.

Definition balanced : Quality :=
  {| fftResolution := Some 256%Q;
     simulationSize := Some 980%Q;
     levelSizes := Some [256; 512; 1024; 2048; 4096; 8192; 16384]%Q;
     baseCellSize := Some (12 # 10)%Q;
     ringOverlap := Some (5 # 10)%Q;
     displacementScale := Some (11 # 10)%Q |}.

Definition cinematic : Quality :=
  {| fftResolution := Some 512%Q;
     simulationSize := Some 1180%Q;
     levelSizes := Some [320; 640; 1280; 2560; 5120; 10240; 20480]%Q;
     baseCellSize := Some (95 # 100)%Q;
     ringOverlap := Some (6 # 10)%Q;
     displacementScale := Some (124 # 100)%Q |}.

(** [QUALITY_PRESETS] is an object literal, so a property read that misses
    its three own keys continues on [Object.prototype].  These are the names
    found there; each resolves to a function (or, for [__proto__], to the
    prototype object itself): a truthy value with none of the six
    configuration properties. *)
Definition Object_prototype_keys : list string :=
  [ "constructor"; "hasOwnProperty"; "isPrototypeOf"; "propertyIsEnumerable";
    "toLocaleString"; "toString"; "valueOf"; "__proto__";
    "__defineGetter__"; "__defineSetter__"; "__lookupGetter__";
    "__lookupSetter__" ]%string.

Definition inheritedMember : Quality :=
  {| fftResolution := None; simulationSize := None; levelSizes := None;
     baseCellSize := None; ringOverlap := None; displacementScale := None |}.

Definition isPresetName (key : string) : bool :=
  (key =? "performance")%string || (key =? "balanced")%string
  || (key =? "cinematic")%string.

(** [QUALITY_PRESETS[key]]; [None] is [undefined]. *)
Definition QUALITY_PRESETS (key : string) : option Quality :=
  if (key =? "performance")%string then Some performance
  else if (key =? "balanced")%string then Some balanced
  else if (key =? "cinematic")%string then Some cinematic
  else if existsb (String.eqb key) Object_prototype_keys then Some inheritedMember
  else None.

(** [QUALITY_PRESETS[qualityPreset] || QUALITY_PRESETS.balanced]: every value
    the lookup can yield other than [undefined] is truthy. *)
Definition qualityFor (qualityPreset : string) : Quality :=
  match QUALITY_PRESETS qualityPreset with
  | Some q => q
  | None => balanced
  end.

Record Params : Type := {
  windSpeed : Q;
  windDirection : Q;            (* degrees *)
  choppiness : Q;
  foamIntensity : Q;
  sunElevation : Q;
  lodScale : Q;
  reflectionStrength : Q;
  reflectionDistortion : Q;
  sunScatterStrength : Q;
  foamScale : Q
}.

Definition DEFAULT_PARAMS : Params :=
  {| windSpeed := 11%Q;
     windDirection := 140%Q;
     choppiness := (145 # 100)%Q;
     foamIntensity := (52 # 100)%Q;
     sunElevation := 24%Q;
     lodScale := 1%Q;
     reflectionStrength := (62 # 100)%Q;
     reflectionDistortion := (16 # 1000)%Q;
     sunScatterStrength := (24 # 100)%Q;
     foamScale := (17 # 100)%Q |}.

(** [MathUtils.degToRad] and [MathUtils.lerp]. *)
Definition toRadians (degrees : Q) : R := (Q2R degrees * (PI / 180))%R.
Definition lerp (x y t : Q) : Q := ((1 - t) * x + t * y)%Q.

(** The uniforms of the ocean material that this class writes.  A [None]
    in [uSimSize] or [uDisplacementScale] stands for the non-number that
    results from an [undefined] quality property. *)
Record Uniforms : Type := {
  uSimSize : option Q;
  uDisplacementScale : option Q;
  uNormalStrength : Q;
  uRoughness : Q;
  uFoamIntensity : Q;
  uDetailDrift : R * R;
  uReflectionStrength : Q;
  uReflectionDistortion : Q;
  uSunScatterStrength : Q;
  uFoamScale : Q
}.

(** The uniforms as [createOceanMaterial] initialises them. *)
Definition createOceanMaterial_uniforms (simSize : option Q) : Uniforms :=
  {| uSimSize := simSize;
     uDisplacementScale := Some 1%Q;
     uNormalStrength := 1%Q;
     uRoughness := (15 # 100)%Q;
     uFoamIntensity := (55 # 100)%Q;
     uDetailDrift := (0%R, 0%R);
     uReflectionStrength := (58 # 100)%Q;
     uReflectionDistortion := (16 # 1000)%Q;
     uSunScatterStrength := (24 # 100)%Q;
     uFoamScale := (17 # 100)%Q |}.

(** Identity of an object created with [new]. *)
Definition Ref : Type := nat.

(** The instance, with the part of the heap its methods touch: the counter
    that names the next object created and the objects disposed so far. *)
Record t : Type := {
  params : Params;
  qualityPreset : string;
  quality : Quality;
  fft : option (Ref * OceanFFT.t);
  lodGrid : option (Ref * OceanLODGrid.t);
  material : option Ref;
  uniforms : option Uniforms;
  root_children : list Ref;     (* the groups added to [this.root], by owner *)
  nextRef : Ref;
  disposed : list Ref
}.

Definition set_preset (name : string) (q : Quality) (s : t) : t :=
  {| params := params s; qualityPreset := name; quality := q;
     fft := fft s; lodGrid := lodGrid s; material := material s;
     uniforms := uniforms s; root_children := root_children s;
     nextRef := nextRef s; disposed := disposed s |}.

Definition set_fft (v : option (Ref * OceanFFT.t)) (s : t) : t :=
  {| params := params s; qualityPreset := qualityPreset s; quality := quality s;
     fft := v; lodGrid := lodGrid s; material := material s;
     uniforms := uniforms s; root_children := root_children s;
     nextRef := nextRef s; disposed := disposed s |}.

Definition set_lodGrid (v : option (Ref * OceanLODGrid.t)) (s : t) : t :=
  {| params := params s; qualityPreset := qualityPreset s; quality := quality s;
     fft := fft s; lodGrid := v; material := material s;
     uniforms := uniforms s; root_children := root_children s;
     nextRef := nextRef s; disposed := disposed s |}.

Definition set_material (m : option Ref) (u : option Uniforms) (s : t) : t :=
  {| params := params s; qualityPreset := qualityPreset s; quality := quality s;
     fft := fft s; lodGrid := lodGrid s; material := m;
     uniforms := u; root_children := root_children s;
     nextRef := nextRef s; disposed := disposed s |}.

Definition set_uniforms (u : option Uniforms) (s : t) : t :=
  set_material (material s) u s.

Definition set_root_children (c : list Ref) (s : t) : t :=
  {| params := params s; qualityPreset := qualityPreset s; quality := quality s;
     fft := fft s; lodGrid := lodGrid s; material := material s;
     uniforms := uniforms s; root_children := c;
     nextRef := nextRef s; disposed := disposed s |}.

(** [new]: take the next object identity. *)
Definition alloc (s : t) : Ref * t :=
  (nextRef s,
   {| params := params s; qualityPreset := qualityPreset s; quality := quality s;
      fft := fft s; lodGrid := lodGrid s; material := material s;
      uniforms := uniforms s; root_children := root_children s;
      nextRef := S (nextRef s); disposed := disposed s |}).

(** [x.dispose()]. *)
Definition dispose_ref (r : Ref) (s : t) : t :=
  {| params := params s; qualityPreset := qualityPreset s; quality := quality s;
     fft := fft s; lodGrid := lodGrid s; material := material s;
     uniforms := uniforms s; root_children := root_children s;
     nextRef := nextRef s; disposed := disposed s ++ [r] |}.

(** [#teardown()]. *)
Definition teardown (s : t) : t :=
  let s1 :=
    match lodGrid s with
    | Some (r, _) =>
        set_lodGrid None
          (set_root_children (List.filter (fun c => negb (Nat.eqb c r)) (root_children s))
             (dispose_ref r s))
    | None => s
    end in
  let s2 :=
    match material s1 with
    | Some m => set_material None None (dispose_ref m s1)
    | None => s1
    end in
  match fft s2 with
  | Some (r, _) => set_fft None (dispose_ref r s2)
  | None => s2
  end.

(** [#applyOceanParams()]. *)
Definition applyOceanParams (s : t) : t :=
  match fft s, uniforms s with
  | Some (rf, f), Some u =>
      let p := params s in
      let f1 := OceanFFT.setWind (windSpeed p) (toRadians (windDirection p)) f in
      let f2 := OceanFFT.setChoppiness (choppiness p) f1 in
      let u' :=
        {| uSimSize := uSimSize u;
           uDisplacementScale :=
             option_map
               (fun d => (d * lerp (85 # 100) (12 # 10) (choppiness p / (32 # 10)))%Q)
               (displacementScale (quality s));
           uNormalStrength :=
             lerp (92 # 100) (135 # 100) (min (choppiness p) (32 # 10) / (32 # 10))%Q;
           uRoughness :=
             lerp (9 # 100) (23 # 100) (min (windSpeed p) 30%Q / 30)%Q;
           uFoamIntensity := foamIntensity p;
           uDetailDrift :=
             (cos (toRadians (windDirection p)), sin (toRadians (windDirection p)));
           uReflectionStrength := reflectionStrength p;
           uReflectionDistortion := reflectionDistortion p;
           uSunScatterStrength := sunScatterStrength p;
           uFoamScale := foamScale p |} in
      let s1 := set_uniforms (Some u') (set_fft (Some (rf, f2)) s) in
      match lodGrid s1 with
      | Some (rg, g) =>
          set_lodGrid (Some (rg, OceanLODGrid.setLodScale (lodScale p) g)) s1
      | None => s1
      end
  | _, _ => s
  end.

(** [rebuild(qualityPreset)], called with an explicit name: the state
    reached and how the call completed.  A constructor that throws leaves
    the field it was to be assigned to as [#teardown] left it. *)
Definition rebuild (name : string) (s : t) : t * completion unit :=
  let s0 := teardown (set_preset name (qualityFor name) s) in
  let q := quality s0 in
  let p := params s0 in
  match OceanFFT.constructor
          {| OceanFFT.opt_resolution := fftResolution q;
             OceanFFT.opt_size := simulationSize q;
             OceanFFT.opt_choppiness := Some (choppiness p);
             OceanFFT.opt_windSpeed := Some (windSpeed p);
             OceanFFT.opt_windDirection := Some (toRadians (windDirection p));
             OceanFFT.opt_useHalfFloat := Some true |} with
  | Throw e => (s0, Throw e)
  | Normal f =>
      let '(rf, s1) := alloc s0 in
      let s2 := set_fft (Some (rf, f)) s1 in
      let '(rm, s3) := alloc s2 in
      let s4 :=
        set_material (Some rm)
          (Some (createOceanMaterial_uniforms (simulationSize q))) s3 in
      match OceanLODGrid.constructor
              {| OceanLODGrid.arg_material := rm;
                 OceanLODGrid.arg_levels := levelSizes q;
                 OceanLODGrid.arg_baseCellSize := baseCellSize q;
                 OceanLODGrid.arg_ringOverlap := ringOverlap q |} with
      | Throw e => (s4, Throw e)
      | Normal g =>
          let '(rg, s5) := alloc s4 in
          let g1 := OceanLODGrid.setLodScale (lodScale p) g in
          let s6 := set_lodGrid (Some (rg, g1)) s5 in
          let s7 := set_root_children (root_children s6 ++ [rg]) s6 in
          (applyOceanParams s7, Normal tt)
      end
  end.

(** [setQualityPreset(presetName)]. *)
Definition setQualityPreset (presetName : string) (s : t) : t * completion unit :=
  if (presetName =? qualityPreset s)%string then (s, Normal tt)
  else rebuild presetName s.

(** The fields as the constructor sets them before it calls [rebuild]:
    nothing is held yet, and no object has been created or disposed. *)
Definition initialState (name : string) (mergedParams : Params) : t :=
  {| params := mergedParams;
     qualityPreset := name;
     quality := qualityFor name;
     fft := None; lodGrid := None; material := None; uniforms := None;
     root_children := [];
     nextRef := 0%nat;
     disposed := [] |}.

(** The constructor's arguments: the preset name (default ['balanced']) and
    the parameter record that results from spreading the caller's [params]
    over [DEFAULT_PARAMS]. *)
Definition constructor (qualityPresetArg : option string) (mergedParams : Params)
  : t * completion unit :=
  let name := optionalParameter qualityPresetArg "balanced"%string in
  rebuild name (initialState name mergedParams).

Definition set_params (p : Params) (s : t) : t :=
  {| params := p; qualityPreset := qualityPreset s; quality := quality s;
     fft := fft s; lodGrid := lodGrid s; material := material s;
     uniforms := uniforms s; root_children := root_children s;
     nextRef := nextRef s; disposed := disposed s |}.

(** [this.params[paramKey] = paramValue] on the ten parameters the class
    reads; a value stored under any other key is never read again. *)
Definition assignParam (paramKey : string) (v : Q) (p : Params) : Params :=
  let upd (name : string) (old : Q) : Q := if (paramKey =? name)%string then v else old in
  {| windSpeed := upd "windSpeed"%string (windSpeed p);
     windDirection := upd "windDirection"%string (windDirection p);
     choppiness := upd "choppiness"%string (choppiness p);
     foamIntensity := upd "foamIntensity"%string (foamIntensity p);
     sunElevation := upd "sunElevation"%string (sunElevation p);
     lodScale := upd "lodScale"%string (lodScale p);
     reflectionStrength := upd "reflectionStrength"%string (reflectionStrength p);
     reflectionDistortion := upd "reflectionDistortion"%string (reflectionDistortion p);
     sunScatterStrength := upd "sunScatterStrength"%string (sunScatterStrength p);
     foamScale := upd "foamScale"%string (foamScale p) |}.

(** The [case] labels of the [switch] in [setParam]. *)
Definition appliedKeys : list string :=
  [ "windSpeed"; "windDirection"; "choppiness"; "foamIntensity"; "lodScale";
    "reflectionStrength"; "reflectionDistortion"; "sunScatterStrength";
    "foamScale" ]%string.

(** [setParam(paramKey, paramValue)] for a numeric value. *)
Definition setParam (paramKey : string) (paramValue : Q) (s : t) : t :=
  let s1 := set_params (assignParam paramKey paramValue (params s)) s in
  match uniforms s1, fft s1 with
  | Some _, Some _ =>
      if existsb (String.eqb paramKey) appliedKeys then applyOceanParams s1 else s1
  | _, _ => s1
  end.

(** The lighting state handed to [update], and the uniforms of the ocean
    material that only [update] writes.  ([uDisplacementMap] and
    [uNormalMap] are assigned the textures of the FFT's two output targets,
    the same objects on every call.) *)
Record Lighting : Type := {
  sunDirection : R * R * R;
  sunColor : R * R * R;
  skyZenithColor : R * R * R;
  skyHorizonColor : R * R * R
}.

Record FrameUniforms : Type := {
  uTime : Q;
  uSunDirection : R * R * R;
  uSunColor : R * R * R;
  uSkyZenithColor : R * R * R;
  uSkyHorizonColor : R * R * R
}.

(** [update(deltaTime, elapsedTime, lightingState)], with the position of
    [this.camera] at the time of the call: the new state and per-frame
    uniforms, and the simulation passes submitted. *)
Definition update (deltaTime elapsedTime : Q) (lightingState : option Lighting)
  (cameraPosition : OceanLODGrid.Vec3) (st : t * FrameUniforms)
  : (t * FrameUniforms) * list OceanFFT.Pass :=
  let '(s, fu) := st in
  match fft s, uniforms s, lodGrid s with
  | Some (rf, f), Some _, Some (rg, g) =>
      let '(f', passes) := OceanFFT.update deltaTime f in
      let fu' :=
        match lightingState with
        | Some l =>
            {| uTime := elapsedTime;
               uSunDirection := sunDirection l;
               uSunColor := sunColor l;
               uSkyZenithColor := skyZenithColor l;
               uSkyHorizonColor := skyHorizonColor l |}
        | None =>
            {| uTime := elapsedTime;
               uSunDirection := uSunDirection fu;
               uSunColor := uSunColor fu;
               uSkyZenithColor := uSkyZenithColor fu;
               uSkyHorizonColor := uSkyHorizonColor fu |}
        end in
      ((set_lodGrid (Some (rg, OceanLODGrid.update cameraPosition g))
          (set_fft (Some (rf, f')) s),
        fu'),
       passes)
  | _, _, _ => (st, [])
  end.

(** [dispose()], as far as the instance's own state goes (the root group
    also leaves its parent scene). *)
Definition dispose (s : t) : t := teardown s.

End OceanSystem.

(** ** render/PlanarReflectionPass.js *)

(** The vector and matrix types of the rendering library, over exact reals.
    Only operations whose meaning is fixed by their name are defined here. *)
Module Three.
Local Open Scope R_scope.

Record Vector3 : Type := { x3 : R; y3 : R; z3 : R }.
Record Vector4 : Type := { x4 : R; y4 : R; z4 : R; w4 : R }.
Record Plane : Type := { plane_normal : Vector3; plane_constant : R }.

(** [elements], column-major: index [r + 4 * c] holds row [r], column [c]. *)
Definition Matrix4 : Type := nat -> R.

Definition Matrix4_set
  (n11 n12 n13 n14 n21 n22 n23 n24 n31 n32 n33 n34 n41 n42 n43 n44 : R) : Matrix4 :=
  fun i =>
    match i with
    | 0%nat => n11 | 1%nat => n21 | 2%nat => n31 | 3%nat => n41
    | 4%nat => n12 | 5%nat => n22 | 6%nat => n32 | 7%nat => n42
    | 8%nat => n13 | 9%nat => n23 | 10%nat => n33 | 11%nat => n43
    | 12%nat => n14 | 13%nat => n24 | 14%nat => n34 | 15%nat => n44
    | _ => 0
    end.

Definition identity : Matrix4 :=
  Matrix4_set 1 0 0 0  0 1 0 0  0 0 1 0  0 0 0 1.

(** [a.multiply(b)]: the matrix product [a * b]. *)
Definition multiply (a b : Matrix4) : Matrix4 :=
  fun i =>
    let r := (i mod 4)%nat in
    let c := (i / 4)%nat in
    if (i <? 16)%nat then
      a r * b (4 * c)%nat + a (r + 4)%nat * b (1 + 4 * c)%nat
      + a (r + 8)%nat * b (2 + 4 * c)%nat + a (r + 12)%nat * b (3 + 4 * c)%nat
    else 0.

(** Write one element. *)
Definition setElement (m : Matrix4) (k : nat) (v : R) : Matrix4 :=
  fun i => if (i =? k)%nat then v else m i.

Definition setFromMatrixPosition (m : Matrix4) : Vector3 :=
  {| x3 := m 12%nat; y3 := m 13%nat; z3 := m 14%nat |}.

Definition subVectors (a b : Vector3) : Vector3 :=
  {| x3 := x3 a - x3 b; y3 := y3 a - y3 b; z3 := z3 a - z3 b |}.

Definition add (a b : Vector3) : Vector3 :=
  {| x3 := x3 a + x3 b; y3 := y3 a + y3 b; z3 := z3 a + z3 b |}.

Definition negate (a : Vector3) : Vector3 :=
  {| x3 := - x3 a; y3 := - y3 a; z3 := - z3 a |}.

Definition multiplyScalar (a : Vector3) (s : R) : Vector3 :=
  {| x3 := x3 a * s; y3 := y3 a * s; z3 := z3 a * s |}.

Definition dot (a b : Vector3) : R :=
  x3 a * x3 b + y3 a * y3 b + z3 a * z3 b.

Definition length (a : Vector3) : R := sqrt (dot a a).

(** [normalize()]: [divideScalar(length() || 1)]. *)
Definition normalize (a : Vector3) : Vector3 :=
  let l := length a in
  multiplyScalar a (1 / (if Req_dec_T l 0 then 1 else l)).

(** [v.reflect(normal)]: [v - 2 (v . normal) normal]. *)
Definition reflect (v normal : Vector3) : Vector3 :=
  subVectors v (multiplyScalar normal (2 * dot v normal)).

(** [Vector3.applyMatrix4], with the perspective divide. *)
Definition applyMatrix4 (v : Vector3) (e : Matrix4) : Vector3 :=
  let w := 1 / (e 3%nat * x3 v + e 7%nat * y3 v + e 11%nat * z3 v + e 15%nat) in
  {| x3 := (e 0%nat * x3 v + e 4%nat * y3 v + e 8%nat * z3 v + e 12%nat) * w;
     y3 := (e 1%nat * x3 v + e 5%nat * y3 v + e 9%nat * z3 v + e 13%nat) * w;
     z3 := (e 2%nat * x3 v + e 6%nat * y3 v + e 10%nat * z3 v + e 14%nat) * w |}.

Definition dot4 (a b : Vector4) : R :=
  x4 a * x4 b + y4 a * y4 b + z4 a * z4 b + w4 a * w4 b.

Definition multiplyScalar4 (a : Vector4) (s : R) : Vector4 :=
  {| x4 := x4 a * s; y4 := y4 a * s; z4 := z4 a * s; w4 := w4 a * s |}.

(** [Plane.setFromNormalAndCoplanarPoint]. *)
Definition setFromNormalAndCoplanarPoint (normal point : Vector3) : Plane :=
  {| plane_normal := normal; plane_constant := - dot point normal |}.

(** [Math.sign]. *)
Definition sign (v : R) : R :=
  if Rlt_dec 0 v then 1 else if Rlt_dec v 0 then -1 else 0.

(** The remaining library operations the pass calls.  Their results depend
    on the library's internals (scale extraction, quaternions, matrix
    inversion), so the pass is stated over any implementation of them. *)
Class Library : Type := {
  (** [Matrix4.extractRotation(m)] *)
  extractRotation : Matrix4 -> Matrix4;
  (** the [matrixWorld] of a parentless camera at [position] with the given
      [up] after [lookAt(target)] and [updateMatrixWorld()] *)
  lookAtMatrixWorld : Vector3 -> Vector3 -> Vector3 -> Matrix4;
  (** [Matrix4.invert] *)
  invert : Matrix4 -> Matrix4;
  (** [Plane.applyMatrix4(m)] *)
  Plane_applyMatrix4 : Plane -> Matrix4 -> Plane
}.

End Three.

Module PlanarReflectionPass.
Import Three.
Local Open Scope R_scope.

Definition CLIP_BIAS : R := 3 / 1000.

(** Identity of a render target; [None] where the renderer's current target
    is read stands for the canvas. *)
Definition Ref : Type := nat.

(** The viewer's camera, as far as the pass reads it. *)
Record Camera : Type := {
  cam_matrixWorld : Matrix4;
  cam_projectionMatrix : Matrix4;
  cam_fov : R;
  cam_aspect : R;
  cam_near : R;
  cam_far : R;
  cam_viewport : option Vector4
}.

(** The [mirrorCamera] owned by the pass. *)
Record MirrorCamera : Type := {
  mc_position : Vector3;
  mc_up : Vector3;
  mc_fov : R;
  mc_aspect : R;
  mc_near : R;
  mc_far : R;
  mc_matrixWorld : Matrix4;
  mc_matrixWorldInverse : Matrix4;
  mc_projectionMatrix : Matrix4
}.

(** The ocean root object: [None] when the field is null. *)
Record Object3D : Type := {
  visible : bool;
  matrixWorld : Matrix4
}.

(** What the renderer did to a render target. *)
Inductive RenderOp : Type :=
| Clear (target : option Ref)
| Render (target : option Ref) (camera : MirrorCamera) (oceanVisible : bool).

Record Renderer : Type := {
  currentRenderTarget : option Ref;
  xr_enabled : bool;
  shadowMap_autoUpdate : bool;
  autoClear : bool;
  depthMask : bool;
  state_viewport : option Vector4;
  submitted : list RenderOp      (* oldest first *)
}.

(** The two uniforms of the ocean material the pass writes. *)
Record OceanUniforms : Type := {
  uReflectionMap : option Ref;   (* [None]: the default 1x1 texture *)
  uReflectionMatrix : Matrix4
}.

(** The instance's own fields. *)
Record t : Type := {
  resolutionScale : R;
  textureMatrix : Matrix4;
  reflectionTextureMatrix : Matrix4;
  mirrorCamera : MirrorCamera;
  mirrorPlane : Plane;
  normal : Vector3;
  mirrorWorldPosition : Vector3;
  cameraWorldPosition : Vector3;
  rotationMatrix : Matrix4;
  lookAtPosition : Vector3;
  clipPlane : Vector4;
  view : Vector3;
  target : Vector3;
  q : Vector4;
  renderTarget : Ref
}.

(** Everything [update] can touch: the pass, the objects it holds references
    to, and the uniforms object passed in (if any). *)
Record World : Type := {
  pass : t;
  oceanRoot : option Object3D;
  camera : Camera;
  renderer : Renderer;
  oceanUniforms : option OceanUniforms
}.

Section Update.
Context {lib : Library}.

(** Lines 79-87: the scratch vectors written before the side test. *)
Definition beforeTest (p : t) (root : Object3D) (cam : Camera) : t :=
  let mirrorWorldPosition' := setFromMatrixPosition (matrixWorld root) in
  let cameraWorldPosition' := setFromMatrixPosition (cam_matrixWorld cam) in
  let rotationMatrix' := extractRotation (matrixWorld root) in
  let normal' :=
    normalize (applyMatrix4 {| x3 := 0; y3 := 1; z3 := 0 |} rotationMatrix') in
  let view' := subVectors mirrorWorldPosition' cameraWorldPosition' in
  {| resolutionScale := resolutionScale p;
     textureMatrix := textureMatrix p;
     reflectionTextureMatrix := reflectionTextureMatrix p;
     mirrorCamera := mirrorCamera p;
     mirrorPlane := mirrorPlane p;
     normal := normal';
     mirrorWorldPosition := mirrorWorldPosition';
     cameraWorldPosition := cameraWorldPosition';
     rotationMatrix := rotationMatrix';
     lookAtPosition := lookAtPosition p;
     clipPlane := clipPlane p;
     view := view';
     target := target p;
     q := q p;
     renderTarget := renderTarget p |}.

(** Lines 93-146: the mirror camera, the texture matrix and the oblique
    near plane. *)
Definition mirrorFrame (p : t) (cam : Camera) : t :=
  let view1 := add (negate (reflect (view p) (normal p))) (mirrorWorldPosition p) in
  let rotationMatrix1 := extractRotation (cam_matrixWorld cam) in
  let lookAtPosition1 :=
    add (applyMatrix4 {| x3 := 0; y3 := 0; z3 := -1 |} rotationMatrix1)
        (cameraWorldPosition p) in
  let target1 :=
    add (negate (reflect (subVectors (mirrorWorldPosition p) lookAtPosition1) (normal p)))
        (mirrorWorldPosition p) in
  let up1 := reflect (applyMatrix4 {| x3 := 0; y3 := 1; z3 := 0 |} rotationMatrix1) (normal p) in
  let world1 := lookAtMatrixWorld view1 up1 target1 in
  let inverse1 := invert world1 in
  let projection0 := cam_projectionMatrix cam in
  let textureMatrix1 :=
    multiply (multiply (reflectionTextureMatrix p) projection0) inverse1 in
  let mirrorPlane1 :=
    Plane_applyMatrix4
      (setFromNormalAndCoplanarPoint (normal p) (mirrorWorldPosition p)) inverse1 in
  let clipPlane0 :=
    {| x4 := x3 (plane_normal mirrorPlane1);
       y4 := y3 (plane_normal mirrorPlane1);
       z4 := z3 (plane_normal mirrorPlane1);
       w4 := plane_constant mirrorPlane1 |} in
  let q1 :=
    {| x4 := (sign (x4 clipPlane0) + projection0 8%nat) / projection0 0%nat;
       y4 := (sign (y4 clipPlane0) + projection0 9%nat) / projection0 5%nat;
       z4 := -1;
       w4 := (1 + projection0 10%nat) / projection0 14%nat |} in
  let clipPlane1 := multiplyScalar4 clipPlane0 (2 / dot4 clipPlane0 q1) in
  let projection1 :=
    setElement
      (setElement
         (setElement
            (setElement projection0 2%nat (x4 clipPlane1))
            6%nat (y4 clipPlane1))
         10%nat (z4 clipPlane1 + 1 - CLIP_BIAS))
      14%nat (w4 clipPlane1) in
  {| resolutionScale := resolutionScale p;
     textureMatrix := textureMatrix1;
     reflectionTextureMatrix := reflectionTextureMatrix p;
     mirrorCamera :=
       {| mc_position := view1;
          mc_up := up1;
          mc_fov := cam_fov cam;
          mc_aspect := cam_aspect cam;
          mc_near := cam_near cam;
          mc_far := cam_far cam;
          mc_matrixWorld := world1;
          mc_matrixWorldInverse := inverse1;
          mc_projectionMatrix := projection1 |};
     mirrorPlane := mirrorPlane1;
     normal := normal p;
     mirrorWorldPosition := mirrorWorldPosition p;
     cameraWorldPosition := cameraWorldPosition p;
     rotationMatrix := rotationMatrix1;
     lookAtPosition := lookAtPosition1;
     clipPlane := clipPlane1;
     view := view1;
     target := target1;
     q := q1;
     renderTarget := renderTarget p |}.

(** Lines 148-169: render the scene into the reflection target with the
    ocean hidden, then put the renderer back. *)
Definition renderReflection (p : t) (r : Renderer) : Renderer :=
  let target := Some (renderTarget p) in
  let cleared := if negb (autoClear r) then [Clear target] else [] in
  {| currentRenderTarget := currentRenderTarget r;
     xr_enabled := xr_enabled r;
     shadowMap_autoUpdate := shadowMap_autoUpdate r;
     autoClear := autoClear r;
     depthMask := true;
     state_viewport := state_viewport r;
     submitted := submitted r ++ cleared ++ [Render target (mirrorCamera p) false] |}.

Definition setViewport (v : option Vector4) (r : Renderer) : Renderer :=
  match v with
  | None => r
  | Some vp =>
      {| currentRenderTarget := currentRenderTarget r;
         xr_enabled := xr_enabled r;
         shadowMap_autoUpdate := shadowMap_autoUpdate r;
         autoClear := autoClear r;
         depthMask := depthMask r;
         state_viewport := Some vp;
         submitted := submitted r |}
  end.

(** [update({ oceanUniforms })]. *)
Definition update (w : World) : World :=
  match oceanRoot w with
  | None => w
  | Some root =>
      if negb (visible root) then w
      else
        let p1 := beforeTest (pass w) root (camera w) in
        if Rlt_dec 0 (dot (view p1) (normal p1)) then
          {| pass := p1; oceanRoot := oceanRoot w; camera := camera w;
             renderer := renderer w; oceanUniforms := oceanUniforms w |}
        else
          let p2 := mirrorFrame p1 (camera w) in
          {| pass := p2;
             oceanRoot := Some {| visible := true; matrixWorld := matrixWorld root |};
             camera := camera w;
             renderer :=
               setViewport (cam_viewport (camera w)) (renderReflection p2 (renderer w));
             oceanUniforms :=
               option_map
                 (fun _ =>
                    {| uReflectionMap := Some (renderTarget p2);
                       uReflectionMatrix := textureMatrix p2 |})
                 (oceanUniforms w) |}
  end.

End Update.

End PlanarReflectionPass.

(* ================================================================== *)
(** * Part II: vocabulary of the statements, and example inputs *)
(* ================================================================== *)

(** ** Predicates and derived quantities *)

Definition power_of_two (n : Z) : Prop :=
  exists k : Z, (0 <= k)%Z /\ n = (2 ^ k)%Z.

(** The time step [update] stores. *)
Definition clampedDeltaTime (dt : Q) : Q :=
  JS.min (1 # 10)%Q (JS.max (1 # 240)%Q dt).

(** The pass [#renderWavePhase] submits in state [o]. *)
Definition phasePass (o : OceanFFT.t) : OceanFFT.Pass :=
  {| OceanFFT.pass_material := OceanFFT.materialPhase;
     OceanFFT.pass_reads :=
       [ if negb (OceanFFT.initialized o) then OceanFFT.pingPhaseTexture
         else if OceanFFT.pingPhase o then OceanFFT.pingPhaseFramebuffer
              else OceanFFT.pongPhaseFramebuffer ];
     OceanFFT.pass_subtransformSize := None;
     OceanFFT.pass_deltaTime := Some (OceanFFT.deltaTime o);
     OceanFFT.pass_cleared := false;
     OceanFFT.pass_target :=
       if OceanFFT.pingPhase o then OceanFFT.pongPhaseFramebuffer
       else OceanFFT.pingPhaseFramebuffer |}.

Definition isPhase (p : OceanFFT.Pass) : bool :=
  match OceanFFT.pass_material p with
  | OceanFFT.materialPhase => true
  | _ => false
  end.

(** What a pass samples and what it renders into. *)
Definition bindings (p : OceanFFT.Pass) : list OceanFFT.Buffer * OceanFFT.Buffer :=
  (OceanFFT.pass_reads p, OceanFFT.pass_target p).

(** Every combination of sampled textures and render target that the passes
    of [update] can have. *)
Definition updateBindings : list (list OceanFFT.Buffer * OceanFFT.Buffer) :=
  [ ([], OceanFFT.initialSpectrumFramebuffer);
    ([OceanFFT.pingPhaseTexture], OceanFFT.pongPhaseFramebuffer);
    ([OceanFFT.pingPhaseTexture], OceanFFT.pingPhaseFramebuffer);
    ([OceanFFT.pingPhaseFramebuffer], OceanFFT.pongPhaseFramebuffer);
    ([OceanFFT.pongPhaseFramebuffer], OceanFFT.pingPhaseFramebuffer);
    ([OceanFFT.initialSpectrumFramebuffer; OceanFFT.pingPhaseFramebuffer],
     OceanFFT.spectrumFramebuffer);
    ([OceanFFT.initialSpectrumFramebuffer; OceanFFT.pongPhaseFramebuffer],
     OceanFFT.spectrumFramebuffer);
    ([OceanFFT.spectrumFramebuffer], OceanFFT.pingTransformFramebuffer);
    ([OceanFFT.pingTransformFramebuffer], OceanFFT.pongTransformFramebuffer);
    ([OceanFFT.pongTransformFramebuffer], OceanFFT.pingTransformFramebuffer);
    ([OceanFFT.pingTransformFramebuffer], OceanFFT.displacementMapFramebuffer);
    ([OceanFFT.pongTransformFramebuffer], OceanFFT.displacementMapFramebuffer);
    ([OceanFFT.displacementMapFramebuffer], OceanFFT.normalMapFramebuffer) ].

(** The passes of [#renderSpectrumFFT] for a given number of iterations. *)
Definition transformPasses (iters : nat) : list OceanFFT.Pass :=
  List.map (OceanFFT.horizontalPass iters) (seq 0 iters)
  ++ List.map (OceanFFT.verticalPass iters) (seq iters iters).

(** The pass the two loops submit at index [i]. *)
Definition transformPass (iters i : nat) : OceanFFT.Pass :=
  if (i <? iters)%nat then OceanFFT.horizontalPass iters i
  else OceanFFT.verticalPass iters i.

(** [levels] is not an array or has fewer than two entries. *)
Definition levelsTooShort (levels : option (list Q)) : bool :=
  match levels with
  | None => true
  | Some ls => (List.length ls <? 2)%nat
  end.

(** Adjacent entries increase, as the spec words the invariant on level
    sizes. *)
Fixpoint strictlyIncreasing (ls : list Q) : Prop :=
  match ls with
  | a :: (b :: _) as rest => (a < b)%Q /\ strictlyIncreasing rest
  | _ => True
  end.

(** The footprint scale [setLodScale] applies. *)
Definition clampedLodScale (scale : Q) : Q :=
  JS.max (1 # 2)%Q (JS.min (5 # 2)%Q scale).

(** The configuration fields of a grid, which no method changes. *)
Definition sameConfiguration (g g' : OceanLODGrid.t) : Prop :=
  OceanLODGrid.material g' = OceanLODGrid.material g
  /\ OceanLODGrid.levels g' = OceanLODGrid.levels g
  /\ OceanLODGrid.baseCellSize g' = OceanLODGrid.baseCellSize g
  /\ OceanLODGrid.ringOverlap g' = OceanLODGrid.ringOverlap g
  /\ OceanLODGrid.snapSize g' = OceanLODGrid.snapSize g.

(** Entries never decrease. *)
Fixpoint nondecreasing (ls : list Q) : Prop :=
  match ls with
  | a :: (b :: _) as rest => (a <= b)%Q /\ nondecreasing rest
  | _ => True
  end.

(** The ground footprint of a mesh.  [PlaneGeometry(width, height)] is
    centred on its origin, and [rotateX(-PI / 2)] lays it flat with its
    width along x and its height along z, so the mesh covers the rectangle
    of that width and height centred on the mesh position. *)
Definition covers (m : OceanLODGrid.Mesh) (x z : Q) : Prop :=
  (OceanLODGrid.vx (OceanLODGrid.position m) - OceanLODGrid.width m * (1 # 2) <= x
   /\ x <= OceanLODGrid.vx (OceanLODGrid.position m) + OceanLODGrid.width m * (1 # 2)
   /\ OceanLODGrid.vz (OceanLODGrid.position m) - OceanLODGrid.height m * (1 # 2) <= z
   /\ z <= OceanLODGrid.vz (OceanLODGrid.position m) + OceanLODGrid.height m * (1 # 2))%Q.

(** The square of the given side centred on the group's origin. *)
Definition inSquare (side x z : Q) : Prop :=
  (- (side * (1 # 2)) <= x /\ x <= side * (1 # 2)
   /\ - (side * (1 # 2)) <= z /\ z <= side * (1 # 2))%Q.



(** The objects an [OceanSystem] holds, in the order [#teardown] releases
    them: LOD grid, material, FFT pipeline. *)
Definition heldRefs (s : OceanSystem.t) : list OceanSystem.Ref :=
  match OceanSystem.lodGrid s with Some (r, _) => [r] | None => [] end
  ++ match OceanSystem.material s with Some r => [r] | None => [] end
  ++ match OceanSystem.fft s with Some (r, _) => [r] | None => [] end.

(** Resource discipline of an [OceanSystem]: no object is held twice,
    disposed twice, or held after it was disposed; every object known was
    created before now; the root group contains the group of the held grid
    and nothing else; and the held grid draws with the held material. *)
Definition soundResources (s : OceanSystem.t) : Prop :=
  NoDup (heldRefs s ++ OceanSystem.disposed s)
  /\ Forall (fun r => (r < OceanSystem.nextRef s)%nat)
       (heldRefs s ++ OceanSystem.disposed s)
  /\ OceanSystem.root_children s
     = match OceanSystem.lodGrid s with Some (r, _) => [r] | None => [] end
  /\ (forall rg g, OceanSystem.lodGrid s = Some (rg, g) ->
                   OceanSystem.material s = Some (OceanLODGrid.material g)).

(** The same objects are held, under the same identities, and nothing was
    created or disposed. *)
Definition sameResources (s s' : OceanSystem.t) : Prop :=
  heldRefs s' = heldRefs s
  /\ OceanSystem.disposed s' = OceanSystem.disposed s
  /\ OceanSystem.nextRef s' = OceanSystem.nextRef s
  /\ OceanSystem.root_children s' = OceanSystem.root_children s
  /\ OceanSystem.material s' = OceanSystem.material s
  /\ match OceanSystem.lodGrid s', OceanSystem.lodGrid s with
     | Some (r', g'), Some (r, g) =>
         r' = r /\ OceanLODGrid.material g' = OceanLODGrid.material g
     | None, None => True
     | _, _ => False
     end.

(** The simulation, the material uniforms and the grid footprint show the
    current parameter values. *)
Definition inSync (s : OceanSystem.t) : Prop :=
  forall rf f u rg g,
    OceanSystem.fft s = Some (rf, f) ->
    OceanSystem.uniforms s = Some u ->
    OceanSystem.lodGrid s = Some (rg, g) ->
    let p := OceanSystem.params s in
    let direction := OceanSystem.toRadians (OceanSystem.windDirection p) in
    OceanFFT.windSpeed f = JS.max (1 # 100) (OceanSystem.windSpeed p)
    /\ OceanFFT.windDirection f = direction
    /\ OceanFFT.windVector f
       = ((cos direction * Q2R (OceanFFT.windSpeed f))%R,
          (sin direction * Q2R (OceanFFT.windSpeed f))%R)
    /\ OceanFFT.choppiness f = JS.max 0 (OceanSystem.choppiness p)
    /\ OceanSystem.uFoamIntensity u = OceanSystem.foamIntensity p
    /\ OceanSystem.uFoamScale u = OceanSystem.foamScale p
    /\ OceanSystem.uReflectionStrength u = OceanSystem.reflectionStrength p
    /\ OceanSystem.uReflectionDistortion u = OceanSystem.reflectionDistortion p
    /\ OceanSystem.uSunScatterStrength u = OceanSystem.sunScatterStrength p
    /\ OceanSystem.uDetailDrift u = (cos direction, sin direction)
    /\ OceanLODGrid.group_scale g
       = {| OceanLODGrid.vx := clampedLodScale (OceanSystem.lodScale p);
            OceanLODGrid.vy := 1;
            OceanLODGrid.vz := clampedLodScale (OceanSystem.lodScale p) |}.

(** The mirror image of the point [x] in the plane through [m] with unit
    normal [n]. *)
Definition mirrorImage (m n x : Three.Vector3) : Three.Vector3 :=
  Three.subVectors x
    (Three.multiplyScalar n (2 * Three.dot (Three.subVectors x m) n)%R).

(** The wind fields of an [OceanFFT] agree: the speed is at least 0.01 and
    the wind vector has that length and the stored direction. *)
Definition windAgrees (o : OceanFFT.t) : Prop :=
  ((1 # 100) <= OceanFFT.windSpeed o)%Q
  /\ OceanFFT.windVector o
     = ((cos (OceanFFT.windDirection o) * Q2R (OceanFFT.windSpeed o))%R,
        (sin (OceanFFT.windDirection o) * Q2R (OceanFFT.windSpeed o))%R).

(** The methods of [OceanFFT] that change its state, as calls with their
    arguments. *)
Inductive FFTCall : Type :=
| CallSetWind (speed : Q) (directionRadians : R)
| CallSetSize (size : Q)
| CallSetChoppiness (choppiness : Q)
| CallFFTUpdate (deltaTime : Q).

Definition fftCall (c : FFTCall) (o : OceanFFT.t) : OceanFFT.t :=
  match c with
  | CallSetWind speed directionRadians => OceanFFT.setWind speed directionRadians o
  | CallSetSize size => OceanFFT.setSize size o
  | CallSetChoppiness choppiness => OceanFFT.setChoppiness choppiness o
  | CallFFTUpdate deltaTime => fst (OceanFFT.update deltaTime o)
  end.

Fixpoint fftCalls (cs : list FFTCall) (o : OceanFFT.t) : OceanFFT.t :=
  match cs with
  | [] => o
  | c :: rest => fftCalls rest (fftCall c o)
  end.

(** The public methods of [OceanSystem], as calls with their arguments. *)
Inductive Call : Type :=
| CallRebuild (qualityPreset : string)
| CallSetQualityPreset (presetName : string)
| CallSetParam (paramKey : string) (paramValue : Q)
| CallUpdate (deltaTime elapsedTime : Q) (lightingState : option OceanSystem.Lighting)
    (cameraPosition : OceanLODGrid.Vec3)
| CallDispose.

(** One call; an exception thrown by [rebuild] is taken to be caught by the
    caller, who goes on with the instance as the call left it. *)
Definition call (c : Call) (st : OceanSystem.t * OceanSystem.FrameUniforms)
  : OceanSystem.t * OceanSystem.FrameUniforms :=
  match c with
  | CallRebuild name => (fst (OceanSystem.rebuild name (fst st)), snd st)
  | CallSetQualityPreset name => (fst (OceanSystem.setQualityPreset name (fst st)), snd st)
  | CallSetParam k v => (OceanSystem.setParam k v (fst st), snd st)
  | CallUpdate dt elapsed lighting cam => fst (OceanSystem.update dt elapsed lighting cam st)
  | CallDispose => (OceanSystem.dispose (fst st), snd st)
  end.

Fixpoint calls (cs : list Call) (st : OceanSystem.t * OceanSystem.FrameUniforms)
  : OceanSystem.t * OceanSystem.FrameUniforms :=
  match cs with
  | [] => st
  | c :: rest => calls rest (call c st)
  end.

(** ** Example inputs *)

Definition options_256_size_0 : OceanFFT.Options :=
  {| OceanFFT.opt_resolution := Some 256%Q;
     OceanFFT.opt_size := Some 0%Q;
     OceanFFT.opt_choppiness := None;
     OceanFFT.opt_windSpeed := None;
     OceanFFT.opt_windDirection := None;
     OceanFFT.opt_useHalfFloat := None |}.

(** The instance [new OceanFFT(renderer, {})] returns. *)
Definition default_fft : OceanFFT.t :=
  OceanFFT.setWind 12 0%R
    {| OceanFFT.resolution := 256;
       OceanFFT.size := 1000;
       OceanFFT.choppiness := (16 # 10)%Q;
       OceanFFT.windSpeed := 12;
       OceanFFT.windDirection := 0%R;
       OceanFFT.windVector := (0%R, 0%R);
       OceanFFT.deltaTime := (1 # 60)%Q;
       OceanFFT.useHalfFloat := true;
       OceanFFT.initialized := false;
       OceanFFT.needsSpectrumInit := true;
       OceanFFT.pingPhase := true |}.

(** Phase textures right after construction: the seed holds
    [Math.random() * PI * 2] (here with every draw equal to 1/2), the two
    framebuffers hold nothing yet. *)
Definition seeded_memory : PhaseMemory.t :=
  fun b =>
    match b with
    | OceanFFT.pingPhaseTexture => FFTShaders.seedPhase (fun _ _ => (1 / 2)%R)
    | _ => fun _ _ => 0%R
    end.

Definition args_decreasing_levels : OceanLODGrid.Args :=
  {| OceanLODGrid.arg_material := 0%nat;
     OceanLODGrid.arg_levels := Some [512; 256]%Q;
     OceanLODGrid.arg_baseCellSize := Some 1%Q;
     OceanLODGrid.arg_ringOverlap := None |}.

Definition unit_cell_grid : OceanLODGrid.t :=
  OceanLODGrid.init
    {| OceanLODGrid.arg_material := 0%nat;
       OceanLODGrid.arg_levels := Some [256; 512]%Q;
       OceanLODGrid.arg_baseCellSize := Some 1%Q;
       OceanLODGrid.arg_ringOverlap := None |}.

Definition camera_at_three_quarters : OceanLODGrid.Vec3 :=
  {| OceanLODGrid.vx := (3 # 4)%Q; OceanLODGrid.vy := 10%Q; OceanLODGrid.vz := 0%Q |}.

(** An example world for the reflection pass: the ocean root at the origin,
    unrotated, and the camera five units below it.  For unrotated objects
    [extractRotation] yields the identity, which is all the side test
    consults; the operations used after the test are not exercised by this
    example. *)
Definition unrotatedLibrary : Three.Library :=
  {| Three.extractRotation := fun _ => Three.identity;
     Three.lookAtMatrixWorld := fun _ _ _ => Three.identity;
     Three.invert := fun m => m;
     Three.Plane_applyMatrix4 := fun pl _ => pl |}.

Definition translation (tx ty tz : R) : Three.Matrix4 :=
  Three.Matrix4_set 1 0 0 tx  0 1 0 ty  0 0 1 tz  0 0 0 1.

Definition zero3 : Three.Vector3 := {| Three.x3 := 0; Three.y3 := 0; Three.z3 := 0 |}.
Definition zero4 : Three.Vector4 :=
  {| Three.x4 := 0; Three.y4 := 0; Three.z4 := 0; Three.w4 := 0 |}.

Definition camera_below : PlanarReflectionPass.Camera :=
  {| PlanarReflectionPass.cam_matrixWorld := translation 0 (-5) 0;
     PlanarReflectionPass.cam_projectionMatrix := Three.identity;
     PlanarReflectionPass.cam_fov := 50;
     PlanarReflectionPass.cam_aspect := 1;
     PlanarReflectionPass.cam_near := 1 / 10;
     PlanarReflectionPass.cam_far := 2000;
     PlanarReflectionPass.cam_viewport := None |}.

(** A pass that has not run yet (the mirror camera's matrices are
    placeholders). *)
Definition fresh_pass : PlanarReflectionPass.t :=
  {| PlanarReflectionPass.resolutionScale := 8 / 10;
     PlanarReflectionPass.textureMatrix := Three.identity;
     PlanarReflectionPass.reflectionTextureMatrix :=
       Three.Matrix4_set (1 / 2) 0 0 (1 / 2)  0 (1 / 2) 0 (1 / 2)
                         0 0 (1 / 2) (1 / 2)  0 0 0 1;
     PlanarReflectionPass.mirrorCamera :=
       {| PlanarReflectionPass.mc_position := zero3;
          PlanarReflectionPass.mc_up := {| Three.x3 := 0; Three.y3 := 1; Three.z3 := 0 |};
          PlanarReflectionPass.mc_fov := 50;
          PlanarReflectionPass.mc_aspect := 1;
          PlanarReflectionPass.mc_near := 1 / 10;
          PlanarReflectionPass.mc_far := 2000;
          PlanarReflectionPass.mc_matrixWorld := Three.identity;
          PlanarReflectionPass.mc_matrixWorldInverse := Three.identity;
          PlanarReflectionPass.mc_projectionMatrix := Three.identity |};
     PlanarReflectionPass.mirrorPlane :=
       {| Three.plane_normal := {| Three.x3 := 1; Three.y3 := 0; Three.z3 := 0 |};
          Three.plane_constant := 0 |};
     PlanarReflectionPass.normal := zero3;
     PlanarReflectionPass.mirrorWorldPosition := zero3;
     PlanarReflectionPass.cameraWorldPosition := zero3;
     PlanarReflectionPass.rotationMatrix := Three.identity;
     PlanarReflectionPass.lookAtPosition := {| Three.x3 := 0; Three.y3 := 0; Three.z3 := -1 |};
     PlanarReflectionPass.clipPlane := zero4;
     PlanarReflectionPass.view := zero3;
     PlanarReflectionPass.target := zero3;
     PlanarReflectionPass.q := zero4;
     PlanarReflectionPass.renderTarget := 7%nat |}.

Definition camera_above : PlanarReflectionPass.Camera :=
  {| PlanarReflectionPass.cam_matrixWorld := translation 0 5 0;
     PlanarReflectionPass.cam_projectionMatrix := Three.identity;
     PlanarReflectionPass.cam_fov := 50;
     PlanarReflectionPass.cam_aspect := 1;
     PlanarReflectionPass.cam_near := 1 / 10;
     PlanarReflectionPass.cam_far := 2000;
     PlanarReflectionPass.cam_viewport := None |}.

Definition ocean_at_origin : PlanarReflectionPass.Object3D :=
  {| PlanarReflectionPass.visible := true;
     PlanarReflectionPass.matrixWorld := Three.identity |}.

Definition world_camera_below : PlanarReflectionPass.World :=
  {| PlanarReflectionPass.pass := fresh_pass;
     PlanarReflectionPass.oceanRoot := Some ocean_at_origin;
     PlanarReflectionPass.camera := camera_below;
     PlanarReflectionPass.renderer :=
       {| PlanarReflectionPass.currentRenderTarget := None;
          PlanarReflectionPass.xr_enabled := false;
          PlanarReflectionPass.shadowMap_autoUpdate := true;
          PlanarReflectionPass.autoClear := true;
          PlanarReflectionPass.depthMask := true;
          PlanarReflectionPass.state_viewport := None;
          PlanarReflectionPass.submitted := [] |};
     PlanarReflectionPass.oceanUniforms :=
       Some {| PlanarReflectionPass.uReflectionMap := None;
               PlanarReflectionPass.uReflectionMatrix := Three.identity |} |}.

Definition world_camera_above : PlanarReflectionPass.World :=
  {| PlanarReflectionPass.pass := fresh_pass;
     PlanarReflectionPass.oceanRoot := Some ocean_at_origin;
     PlanarReflectionPass.camera := camera_above;
     PlanarReflectionPass.renderer := PlanarReflectionPass.renderer world_camera_below;
     PlanarReflectionPass.oceanUniforms := None |}.

Definition args_two_levels : OceanLODGrid.Args :=
  {| OceanLODGrid.arg_material := 0%nat;
     OceanLODGrid.arg_levels := Some [256; 512]%Q;
     OceanLODGrid.arg_baseCellSize := Some 1%Q;
     OceanLODGrid.arg_ringOverlap := None |}.

Definition frame_uniforms_0 : OceanSystem.FrameUniforms :=
  {| OceanSystem.uTime := 0;
     OceanSystem.uSunDirection := (0%R, 1%R, 0%R);
     OceanSystem.uSunColor := (1%R, 1%R, 1%R);
     OceanSystem.uSkyZenithColor := (0%R, 0%R, 1%R);
     OceanSystem.uSkyHorizonColor := (1%R, 1%R, 1%R) |}.

(** The instance [new OceanSystem({ ..., qualityPreset: 'balanced' })]
    yields with the default parameters. *)
Definition balanced_system : OceanSystem.t :=
  fst (OceanSystem.constructor (Some "balanced"%string) OceanSystem.DEFAULT_PARAMS).

(* ================================================================== *)
(** * Part III: properties *)
(* ================================================================== *)

(** ** Integer facts behind the resolution test *)

Lemma to_int32_small (z : Z) :
  (- 2 ^ 31 <= z < 2 ^ 31)%Z -> JS.to_int32 z = z.
Proof.
  intros Hz. unfold JS.to_int32.
  rewrite Z.mod_small; lia.
Qed.

Lemma land_pred_of_power (k : Z) :
  (0 <= k)%Z -> Z.land (2 ^ k) (2 ^ k - 1) = 0%Z.
Proof.
  intros Hk.
  replace (2 ^ k - 1)%Z with (Z.ones k) by (rewrite Z.ones_equiv; lia).
  rewrite Z.land_ones by assumption.
  apply Z.mod_same. apply Z.pow_nonzero; lia.
Qed.

Lemma land_pred_zero_power (n : Z) :
  (0 < n)%Z -> Z.land n (n - 1) = 0%Z -> n = (2 ^ Z.log2 n)%Z.
Proof.
  intros Hn Hland.
  destruct (Z.log2_spec n Hn) as [Hlo Hhi].
  destruct (Z.eq_dec n (2 ^ Z.log2 n)) as [E | NE]; [exact E | exfalso].
  assert (Hpos : (0 < n - 1)%Z).
  { assert (0 < 2 ^ Z.log2 n)%Z
      by (apply Z.pow_pos_nonneg; [lia | apply Z.log2_nonneg]).
    lia. }
  assert (Hlog : Z.log2 (n - 1) = Z.log2 n).
  { apply Z.log2_unique; [apply Z.log2_nonneg | ].
    replace (Z.log2 n + 1)%Z with (Z.succ (Z.log2 n)) by lia. lia. }
  pose proof (Z.bit_log2 n Hn) as Hb1.
  pose proof (Z.bit_log2 (n - 1) Hpos) as Hb2.
  rewrite Hlog in Hb2.
  assert (Hb : Z.testbit (Z.land n (n - 1)) (Z.log2 n) = true)
    by (rewrite Z.land_spec, Hb1, Hb2; reflexivity).
  rewrite Hland, Z.bits_0 in Hb. discriminate.
Qed.

Lemma land_pred_iff_power (n : Z) :
  (0 < n)%Z -> (Z.land n (n - 1) = 0%Z <-> power_of_two n).
Proof.
  intros Hn. split.
  - intros H. exists (Z.log2 n). split; [apply Z.log2_nonneg | ].
    now apply land_pred_zero_power.
  - intros [k [Hk ->]]. now apply land_pred_of_power.
Qed.

(** ** OceanFFT: which resolutions the constructor rejects *)

Lemma ensurePowerOfTwo_throws_iff (value : Q) :
  (JS.floor value < 2 ^ 31)%Z ->
  JS.threw (OceanFFT.ensurePowerOfTwo value) = true
  <-> ~ power_of_two (Z.max 2 (JS.floor value)).
Proof.
  intros Hsmall. unfold OceanFFT.ensurePowerOfTwo, JS.bitand.
  set (n := Z.max 2 (JS.floor value)).
  assert (Hn : (2 <= n < 2 ^ 31)%Z) by (unfold n; lia).
  rewrite !to_int32_small by lia.
  destruct (Z.eqb_spec (Z.land n (n - 1)) 0) as [E | NE]; cbn.
  - split; [discriminate | ].
    intros Hnp. exfalso. apply Hnp. apply land_pred_iff_power; [lia | exact E].
  - split; [ | reflexivity].
    intros _ Hp. apply NE. apply land_pred_iff_power; [lia | exact Hp].
Qed.

Lemma ensurePowerOfTwo_value (value : Q) (n : Z) :
  OceanFFT.ensurePowerOfTwo value = JS.Normal n ->
  n = Z.max 2 (JS.floor value).
Proof.
  unfold OceanFFT.ensurePowerOfTwo.
  destruct (negb _); [discriminate | ]. now intros [= <-].
Qed.

(** The seed-texture allocation: [resolution^2 * 4] floats of four bytes
    fit the language's limit up to resolution [2^24] and exceed it from
    [2^25] on. *)
Lemma generateSeedPhaseTexture_cases (o : OceanFFT.t) :
  (0 <= OceanFFT.resolution o)%Z ->
  let n := OceanFFT.resolution o in
  ((n <= 2 ^ 24)%Z -> OceanFFT.generateSeedPhaseTexture o = JS.Normal tt)
  /\ ((2 ^ 25 <= n)%Z ->
      OceanFFT.generateSeedPhaseTexture o = JS.Throw (JS.RangeError (n * n * 4))).
Proof.
  intros Hn n. fold n in Hn.
  unfold OceanFFT.generateSeedPhaseTexture, JS.Float32Array, JS.MAX_SAFE_INTEGER.
  fold n. split; intros Hb.
  - assert (H1 : (n * n <= 2 ^ 24 * 2 ^ 24)%Z) by (apply Z.mul_le_mono_nonneg; lia).
    assert (H0 : (0 <= n * n)%Z) by (apply Z.mul_nonneg_nonneg; lia).
    replace (n * n * 4 <? 0)%Z with false by (symmetry; apply Z.ltb_ge; lia).
    replace (2 ^ 53 - 1 <? n * n * 4)%Z with false by (symmetry; apply Z.ltb_ge; lia).
    replace (2 ^ 53 - 1 <? 4 * (n * n * 4))%Z with false
      by (symmetry; apply Z.ltb_ge; lia).
    reflexivity.
  - assert (H1 : (2 ^ 25 * 2 ^ 25 <= n * n)%Z) by (apply Z.mul_le_mono_nonneg; lia).
    replace (2 ^ 53 - 1 <? 4 * (n * n * 4))%Z with true
      by (symmetry; apply Z.ltb_lt; lia).
    rewrite orb_true_r. reflexivity.
Qed.

(** A power of two is at most [2^24] or at least [2^25]. *)
Lemma power_of_two_gap (n : Z) :
  power_of_two n -> (n <= 2 ^ 24)%Z \/ (2 ^ 25 <= n)%Z.
Proof.
  intros [k [Hk ->]].
  destruct (Z_le_gt_dec k 24) as [Hle | Hgt].
  - left. apply Z.pow_le_mono_r; lia.
  - right. apply Z.pow_le_mono_r; lia.
Qed.

(** How [new OceanFFT] completes, by the resolution [n] it computes. *)
Lemma constructor_cases (options : OceanFFT.Options) :
  let value := JS.optionalParameter (OceanFFT.opt_resolution options) 256%Q in
  let n := Z.max 2 (JS.floor value) in
  (JS.floor value < 2 ^ 31)%Z ->
  (~ power_of_two n /\
   OceanFFT.constructor options = JS.Throw (JS.ErrorPowerOfTwo value))
  \/ (power_of_two n /\ (2 ^ 25 <= n)%Z /\
      OceanFFT.constructor options = JS.Throw (JS.RangeError (n * n * 4)))
  \/ (power_of_two n /\ (n <= 2 ^ 24)%Z /\
      exists o, OceanFFT.constructor options = JS.Normal o
                /\ OceanFFT.resolution o = n
                /\ OceanFFT.size o = JS.optionalParameter (OceanFFT.opt_size options) 1000%Q).
Proof.
  intros value n Hsmall.
  pose proof (ensurePowerOfTwo_throws_iff value Hsmall) as Hiff. fold n in Hiff.
  unfold OceanFFT.constructor. fold value.
  destruct (OceanFFT.ensurePowerOfTwo value) as [res | e] eqn:E.
  - assert (Hres : res = n) by now apply ensurePowerOfTwo_value.
    assert (Hp : power_of_two n).
    { destruct (Z.eq_dec (Z.land n (n - 1)) 0) as [Hz | Hnz].
      - apply land_pred_iff_power; [unfold n; lia | exact Hz].
      - exfalso.
        assert (Hnp : ~ power_of_two n)
          by (intros Hp; apply Hnz; apply land_pred_iff_power; [unfold n; lia | exact Hp]).
        apply Hiff in Hnp. discriminate Hnp. }
    right. subst res. cbv zeta.
    match goal with
    | |- context [OceanFFT.generateSeedPhaseTexture ?o1] =>
        destruct (generateSeedPhaseTexture_cases o1) as [Hok Hbig];
          [cbn; unfold n; lia | ]; cbn [OceanFFT.resolution OceanFFT.setWind] in Hok, Hbig
    end.
    destruct (power_of_two_gap n Hp) as [Hle | Hge].
    + right. rewrite (Hok Hle). split; [exact Hp | ]. split; [exact Hle | ].
      eexists. split; [reflexivity | ]. split; reflexivity.
    + left. rewrite (Hbig Hge). split; [exact Hp | ]. split; [exact Hge | reflexivity].
  - left. assert (Hnp : ~ power_of_two n) by (apply Hiff; reflexivity).
    split; [exact Hnp | ].
    unfold OceanFFT.ensurePowerOfTwo in E.
    destruct (negb _); [ | discriminate E]. injection E as <-. reflexivity.
Qed.

(** The invariant behind [iterations]: a constructed instance has a
    power-of-two resolution of at least 2, so [Math.log2] of it is the
    integer [iterations] computes. *)
Lemma constructor_resolution (options : OceanFFT.Options) (o : OceanFFT.t) :
  let value := JS.optionalParameter (OceanFFT.opt_resolution options) 256%Q in
  (JS.floor value < 2 ^ 31)%Z ->
  OceanFFT.constructor options = JS.Normal o ->
  power_of_two (OceanFFT.resolution o) /\ (2 <= OceanFFT.resolution o)%Z.
Proof.
  intros value Hsmall Hc.
  destruct (constructor_cases options Hsmall)
    as [[_ H] | [[_ [_ H]] | [Hp [_ [o' [H [Hres _]]]]]]];
    fold value in H; rewrite H in Hc; try discriminate Hc.
  injection Hc as <-. rewrite Hres. split; [exact Hp | lia].
Qed.


(** C1 (as the code has it).  With [n = max(2, floor(resolution))] below
    [2^31], [new OceanFFT] throws its "must be power of two" [Error]
    exactly when [n] is not a power of two.  For a power of two the only
    other failure is the [RangeError] of the seed-texture allocation, which
    the language forces from [n = 2^25] on; so the constructor throws
    exactly when [n] is not a power of two or is at least [2^25].  The
    domain size plays no part: a construction that returns stores the size
    it was given, whatever its sign, and [setSize] raises a later size to at
    least 32 instead of failing. *)
Theorem OceanFFT_constructor_rejects_exactly_non_powers (options : OceanFFT.Options) :
  let value := JS.optionalParameter (OceanFFT.opt_resolution options) 256%Q in
  let n := Z.max 2 (JS.floor value) in
  (JS.floor value < 2 ^ 31)%Z ->
  (OceanFFT.constructor options = JS.Throw (JS.ErrorPowerOfTwo value)
   <-> ~ power_of_two n)
  /\ (OceanFFT.constructor options = JS.Throw (JS.RangeError (n * n * 4))
      <-> power_of_two n /\ (2 ^ 25 <= n)%Z)
  /\ (JS.threw (OceanFFT.constructor options) = true
      <-> ~ power_of_two n \/ (2 ^ 25 <= n)%Z)
  /\ (forall o, OceanFFT.constructor options = JS.Normal o ->
        OceanFFT.resolution o = n
        /\ OceanFFT.size o = JS.optionalParameter (OceanFFT.opt_size options) 1000%Q)
  /\ (forall o sz, (32 <= OceanFFT.size (OceanFFT.setSize sz o))%Q).
Proof.
  intros value n Hsmall.
  pose proof (constructor_cases options Hsmall) as Hc. fold value n in Hc.
  split; [ | split; [ | split; [ | split]]].
  - destruct Hc as [[Hnp H] | [[Hp [_ H]] | [Hp [_ [o [H _]]]]]]; rewrite H.
    + split; [intros _; exact Hnp | reflexivity].
    + split; [discriminate | intros Hnp; contradiction].
    + split; [discriminate | intros Hnp; contradiction].
  - destruct Hc as [[Hnp H] | [[Hp [Hge H]] | [Hp [Hle [o [H _]]]]]]; rewrite H.
    + split; [discriminate | intros [Hp _]; contradiction].
    + split; [intros _; split; assumption | reflexivity].
    + split; [discriminate | intros [_ Hge]; lia].
  - destruct Hc as [[Hnp H] | [[Hp [Hge H]] | [Hp [Hle [o [H _]]]]]]; rewrite H; cbn.
    + split; [intros _; left; exact Hnp | reflexivity].
    + split; [intros _; right; exact Hge | reflexivity].
    + split; [discriminate | intros [Hnp | Hge]; [contradiction | lia]].
  - intros o Ho.
    destruct Hc as [[_ H] | [[_ [_ H]] | [_ [_ [o' [H [Hres Hsize]]]]]]];
      rewrite H in Ho; try discriminate Ho.
    injection Ho as <-. split; assumption.
  - intros o sz. cbn. unfold JS.max. apply Q.le_max_l.
Qed.

Lemma OceanFFT_constructor_rejects_exactly_non_powers_witness :
  (OceanFFT.constructor options_256_size_0 = JS.Throw (JS.ErrorPowerOfTwo 256%Q)
   <-> ~ power_of_two (Z.max 2 (JS.floor 256%Q)))
  /\ (OceanFFT.constructor options_256_size_0
      = JS.Throw (JS.RangeError (Z.max 2 (JS.floor 256%Q) * Z.max 2 (JS.floor 256%Q) * 4))
      <-> power_of_two (Z.max 2 (JS.floor 256%Q))
          /\ (2 ^ 25 <= Z.max 2 (JS.floor 256%Q))%Z)
  /\ (JS.threw (OceanFFT.constructor options_256_size_0) = true
      <-> ~ power_of_two (Z.max 2 (JS.floor 256%Q))
          \/ (2 ^ 25 <= Z.max 2 (JS.floor 256%Q))%Z)
  /\ (forall o, OceanFFT.constructor options_256_size_0 = JS.Normal o ->
        OceanFFT.resolution o = Z.max 2 (JS.floor 256%Q)
        /\ OceanFFT.size o = 0%Q)
  /\ (forall o sz, (32 <= OceanFFT.size (OceanFFT.setSize sz o))%Q).
Proof.
  apply (OceanFFT_constructor_rejects_exactly_non_powers options_256_size_0).
  vm_compute. reflexivity.
Defined.

(** C1 as stated fails: resolution 256 is a power of two and the domain
    size 0 is not positive, yet the constructor returns. *)
Lemma OceanFFT_constructor_accepts_size_zero :
  ~ (JS.threw (OceanFFT.constructor options_256_size_0) = true
     <-> (~ (exists k : nat, 256 == inject_Z (2 ^ Z.of_nat k))%Q \/ (0 <= 0)%Q)).
Proof.
  intros [_ H].
  assert (Hthrew : JS.threw (OceanFFT.constructor options_256_size_0) = true).
  { apply H. right. apply Qle_refl. }
  discriminate Hthrew.
Qed.

(** ** OceanFFT: the passes of one [update] *)

(** The passes of [update], in submission order, and the fields it changes. *)
Lemma update_unfold (dt : Q) (o : OceanFFT.t) :
  let o0 := OceanFFT.set_deltaTime (clampedDeltaTime dt) o in
  OceanFFT.update dt o =
    (OceanFFT.set_pingPhase (negb (OceanFFT.pingPhase o))
       (OceanFFT.set_initialized true
          (if OceanFFT.needsSpectrumInit o
           then OceanFFT.set_needsSpectrumInit false o0 else o0)),
     (if OceanFFT.needsSpectrumInit o
      then snd (OceanFFT.renderInitialSpectrum o0) else [])
     ++ [phasePass o0]
     ++ snd (OceanFFT.renderSpectrum (OceanFFT.set_pingPhase (negb (OceanFFT.pingPhase o)) o0))
     ++ transformPasses (OceanFFT.iterations o)
     ++ snd (OceanFFT.renderNormalMap o0)).
Proof.
  destruct o as [res sz ch ws wd wv dt0 hf ini nsi pp].
  unfold OceanFFT.update, clampedDeltaTime, transformPasses.
  destruct nsi; reflexivity.
Qed.

Lemma horizontalPass_bindings (iters i : nat) :
  In (bindings (OceanFFT.horizontalPass iters i)) updateBindings.
Proof.
  unfold OceanFFT.horizontalPass, bindings, updateBindings.
  destruct (i =? 0)%nat; [ | destruct (i mod 2 =? 1)%nat]; cbn; tauto.
Qed.

Lemma verticalPass_bindings (iters i : nat) :
  In (bindings (OceanFFT.verticalPass iters i)) updateBindings.
Proof.
  unfold OceanFFT.verticalPass, bindings, updateBindings.
  destruct (i =? iters * 2 - 1)%nat;
    [destruct (iters mod 2 =? 0)%nat | destruct (i mod 2 =? 1)%nat]; cbn; tauto.
Qed.

Lemma transformPasses_bindings (iters : nat) (p : OceanFFT.Pass) :
  In p (transformPasses iters) -> In (bindings p) updateBindings.
Proof.
  unfold transformPasses. intros Hin.
  apply in_app_or in Hin. destruct Hin as [Hin | Hin];
    apply in_map_iff in Hin; destruct Hin as [i [<- _]].
  - apply horizontalPass_bindings.
  - apply verticalPass_bindings.
Qed.

Lemma transformPasses_not_phase (iters : nat) :
  filter isPhase (transformPasses iters) = [].
Proof.
  unfold transformPasses. rewrite filter_app.
  assert (H : forall (f : nat -> OceanFFT.Pass) (l : list nat),
             (forall i, isPhase (f i) = false) ->
             filter isPhase (List.map f l) = []).
  { intros f l Hf. induction l as [ | i l IH]; [reflexivity | ].
    cbn. rewrite Hf. exact IH. }
  rewrite !H; [reflexivity | | ].
  - intros i. unfold OceanFFT.verticalPass.
    destruct (i =? iters * 2 - 1)%nat; [ | destruct (i mod 2 =? 1)%nat]; reflexivity.
  - intros i. unfold OceanFFT.horizontalPass.
    destruct (i =? 0)%nat; [ | destruct (i mod 2 =? 1)%nat]; reflexivity.
Qed.

(** Every pass of an update binds one of the listed combinations. *)
Lemma update_bindings (dt : Q) (o : OceanFFT.t) (p : OceanFFT.Pass) :
  In p (snd (OceanFFT.update dt o)) -> In (bindings p) updateBindings.
Proof.
  rewrite update_unfold. cbn [snd]. intros Hin.
  apply in_app_or in Hin. destruct Hin as [Hin | Hin].
  { destruct (OceanFFT.needsSpectrumInit o); [ | contradiction].
    destruct Hin as [<- | []]. cbn. tauto. }
  apply in_app_or in Hin. destruct Hin as [Hin | Hin].
  { destruct Hin as [<- | []]. unfold bindings, updateBindings. cbn.
    destruct (OceanFFT.initialized o), (OceanFFT.pingPhase o); cbn; tauto. }
  apply in_app_or in Hin. destruct Hin as [Hin | Hin].
  { destruct Hin as [<- | []]. unfold bindings, updateBindings. cbn.
    destruct (OceanFFT.pingPhase o); cbn; tauto. }
  apply in_app_or in Hin. destruct Hin as [Hin | Hin].
  { now apply transformPasses_bindings with (iters := OceanFFT.iterations o). }
  destruct Hin as [<- | []]. cbn. tauto.
Qed.

(** The one phase pass of an update. *)
Lemma update_phase_passes (dt : Q) (o : OceanFFT.t) :
  filter isPhase (snd (OceanFFT.update dt o))
  = [phasePass (OceanFFT.set_deltaTime (clampedDeltaTime dt) o)].
Proof.
  rewrite update_unfold. cbn [snd].
  rewrite !filter_app, transformPasses_not_phase.
  destruct (OceanFFT.needsSpectrumInit o); reflexivity.
Qed.

Lemma update_pingPhase (dt : Q) (o : OceanFFT.t) :
  OceanFFT.pingPhase (fst (OceanFFT.update dt o)) = negb (OceanFFT.pingPhase o).
Proof. rewrite update_unfold. reflexivity. Qed.

(** Splits a membership in [updateBindings] into its thirteen cases and
    rewrites the pass's bindings accordingly. *)
Ltac by_bindings H :=
  unfold bindings, updateBindings in H; cbn [In] in H;
  repeat (destruct H as [H | H]); try contradiction;
  let Hreads := fresh "Hreads" in
  let Htarget := fresh "Htarget" in
  injection H as Hreads Htarget;
  rewrite <- ?Hreads, <- ?Htarget in *.

(** C6.  In every [update]: no pass has its render target among the textures
    it samples.  A pass that renders into a buffer of the phase pair or of
    the transform pair samples the opposite buffer of that pair, or, at the
    head of the chain, the seed texture or the assembled spectrum; a pass
    that samples a transform buffer renders into the other one or into the
    displacement map.  Exactly one phase pass is submitted and the flag
    [pingPhase] is negated once: the pass renders into the buffer the old
    flag did not select, which is the buffer the new flag selects. *)
Theorem OceanFFT_update_never_reads_its_target (dt : Q) (o : OceanFFT.t) :
  let o' := fst (OceanFFT.update dt o) in
  let passes := snd (OceanFFT.update dt o) in
  (forall p, In p passes -> ~ In (OceanFFT.pass_target p) (OceanFFT.pass_reads p))
  /\ (forall p, In p passes ->
        (OceanFFT.pass_target p = OceanFFT.pingTransformFramebuffer ->
           OceanFFT.pass_reads p = [OceanFFT.pongTransformFramebuffer]
           \/ OceanFFT.pass_reads p = [OceanFFT.spectrumFramebuffer])
        /\ (OceanFFT.pass_target p = OceanFFT.pongTransformFramebuffer ->
              OceanFFT.pass_reads p = [OceanFFT.pingTransformFramebuffer])
        /\ (OceanFFT.pass_target p = OceanFFT.pingPhaseFramebuffer ->
              OceanFFT.pass_reads p = [OceanFFT.pongPhaseFramebuffer]
              \/ OceanFFT.pass_reads p = [OceanFFT.pingPhaseTexture])
        /\ (OceanFFT.pass_target p = OceanFFT.pongPhaseFramebuffer ->
              OceanFFT.pass_reads p = [OceanFFT.pingPhaseFramebuffer]
              \/ OceanFFT.pass_reads p = [OceanFFT.pingPhaseTexture])
        /\ (In OceanFFT.pingTransformFramebuffer (OceanFFT.pass_reads p) ->
              OceanFFT.pass_target p = OceanFFT.pongTransformFramebuffer
              \/ OceanFFT.pass_target p = OceanFFT.displacementMapFramebuffer)
        /\ (In OceanFFT.pongTransformFramebuffer (OceanFFT.pass_reads p) ->
              OceanFFT.pass_target p = OceanFFT.pingTransformFramebuffer
              \/ OceanFFT.pass_target p = OceanFFT.displacementMapFramebuffer))
  /\ List.length (filter isPhase passes) = 1%nat
  /\ OceanFFT.pingPhase o' = negb (OceanFFT.pingPhase o)
  /\ (forall p, In p passes -> isPhase p = true ->
        OceanFFT.pass_target p =
          (if OceanFFT.pingPhase o then OceanFFT.pongPhaseFramebuffer
           else OceanFFT.pingPhaseFramebuffer)
        /\ OceanFFT.pass_target p =
          (if OceanFFT.pingPhase o' then OceanFFT.pingPhaseFramebuffer
           else OceanFFT.pongPhaseFramebuffer)).
Proof.
  intros o' passes.
  assert (Hflag : OceanFFT.pingPhase o' = negb (OceanFFT.pingPhase o))
    by apply update_pingPhase.
  split; [ | split; [ | split; [ | split]]].
  - intros p Hin. pose proof (update_bindings dt o p Hin) as Hb.
    by_bindings Hb; cbn; intuition discriminate.
  - intros p Hin. pose proof (update_bindings dt o p Hin) as Hb.
    by_bindings Hb; cbn; intuition (try discriminate; auto).
  - unfold passes. rewrite update_phase_passes. reflexivity.
  - exact Hflag.
  - intros p Hin Hp.
    assert (Hp' : In p (filter isPhase passes)) by (apply filter_In; split; assumption).
    unfold passes in Hp'. rewrite update_phase_passes in Hp'.
    destruct Hp' as [<- | []]. rewrite Hflag. cbn.
    destruct (OceanFFT.pingPhase o); split; reflexivity.
Qed.

(** ** OceanFFT: the chain of transform passes *)

Lemma transformPasses_nth_error (iters i : nat) :
  (i < iters * 2)%nat ->
  nth_error (transformPasses iters) i = Some (transformPass iters i).
Proof.
  intros Hi. unfold transformPasses, transformPass.
  destruct (Nat.ltb_spec i iters) as [Hlt | Hge].
  - rewrite nth_error_app1 by (rewrite length_map, length_seq; exact Hlt).
    rewrite nth_error_map, nth_error_seq.
    destruct (Nat.ltb_spec i iters) as [_ | Hc]; [reflexivity | lia].
  - rewrite nth_error_app2 by (rewrite length_map, length_seq; exact Hge).
    rewrite length_map, length_seq, nth_error_map, nth_error_seq.
    destruct (Nat.ltb_spec (i - iters) iters) as [_ | Hc]; [ | lia].
    cbn. do 2 f_equal. lia.
Qed.

(** The render target of every transform pass but the last follows the
    parity of its index. *)
Lemma transform_target (iters i : nat) :
  (i < iters * 2 - 1)%nat ->
  OceanFFT.pass_target (transformPass iters i)
  = if (i mod 2 =? 1)%nat then OceanFFT.pongTransformFramebuffer
    else OceanFFT.pingTransformFramebuffer.
Proof.
  intros Hi. unfold transformPass.
  destruct (i <? iters)%nat.
  - unfold OceanFFT.horizontalPass.
    destruct (Nat.eqb_spec i 0) as [-> | _]; [reflexivity | ].
    destruct (i mod 2 =? 1)%nat; reflexivity.
  - unfold OceanFFT.verticalPass.
    destruct (Nat.eqb_spec i (iters * 2 - 1)) as [E | _]; [lia | ].
    destruct (i mod 2 =? 1)%nat; reflexivity.
Qed.

Lemma pred_parity (i : nat) :
  (0 < i)%nat -> ((i - 1) mod 2 =? 1)%nat = negb (i mod 2 =? 1)%nat.
Proof.
  intros Hi.
  pose proof (Nat.mod_upper_bound i 2) as H1.
  pose proof (Nat.mod_upper_bound (i - 1) 2) as H2.
  pose proof (Nat.div_mod_eq i 2) as E1.
  pose proof (Nat.div_mod_eq (i - 1) 2) as E2.
  destruct (Nat.eqb_spec ((i - 1) mod 2) 1), (Nat.eqb_spec (i mod 2) 1); cbn; lia.
Qed.

(** X2 (transform chain).  Among the passes of [#renderSpectrumFFT], every pass
    after the first samples the buffer the pass before it rendered into,
    with one exception: when the number of iterations is odd, the last pass
    samples [pongTransformFramebuffer] although the pass before it rendered
    into [pingTransformFramebuffer]. *)
Theorem transform_chain (iters i : nat) :
  (0 < i < iters * 2)%nat ->
  (nth_error (transformPasses iters) i = Some (transformPass iters i)
   /\ nth_error (transformPasses iters) (i - 1) = Some (transformPass iters (i - 1)))
  /\ (i <> (iters * 2 - 1)%nat \/ (iters mod 2 = 0)%nat ->
        OceanFFT.pass_reads (transformPass iters i)
        = [OceanFFT.pass_target (transformPass iters (i - 1))])
  /\ (i = (iters * 2 - 1)%nat -> (iters mod 2 = 1)%nat ->
        OceanFFT.pass_reads (transformPass iters i) = [OceanFFT.pongTransformFramebuffer]
        /\ OceanFFT.pass_target (transformPass iters (i - 1))
           = OceanFFT.pingTransformFramebuffer).
Proof.
  intros [Hpos Hlt].
  split; [split; apply transformPasses_nth_error; lia | ].
  assert (Hprev : OceanFFT.pass_target (transformPass iters (i - 1))
                  = if (i mod 2 =? 1)%nat then OceanFFT.pingTransformFramebuffer
                    else OceanFFT.pongTransformFramebuffer).
  { rewrite transform_target by lia. rewrite pred_parity by lia.
    destruct (i mod 2 =? 1)%nat; reflexivity. }
  assert (Hreads : OceanFFT.pass_reads (transformPass iters i)
                   = if (i =? iters * 2 - 1)%nat
                     then [if (iters mod 2 =? 0)%nat then OceanFFT.pingTransformFramebuffer
                           else OceanFFT.pongTransformFramebuffer]
                     else [if (i mod 2 =? 1)%nat then OceanFFT.pingTransformFramebuffer
                           else OceanFFT.pongTransformFramebuffer]).
  { unfold transformPass.
    destruct (Nat.ltb_spec i iters) as [Hin | Hout].
    - unfold OceanFFT.horizontalPass.
      destruct (Nat.eqb_spec i 0) as [E | _]; [lia | ].
      destruct (Nat.eqb_spec i (iters * 2 - 1)) as [E | _]; [lia | ].
      destruct (i mod 2 =? 1)%nat; reflexivity.
    - unfold OceanFFT.verticalPass.
      destruct (i =? iters * 2 - 1)%nat;
        [destruct (iters mod 2 =? 0)%nat | destruct (i mod 2 =? 1)%nat]; reflexivity. }
  assert (Hodd : i = (iters * 2 - 1)%nat -> (i mod 2 =? 1)%nat = true).
  { intros E. apply Nat.eqb_eq.
    pose proof (Nat.mod_upper_bound i 2) as H1.
    pose proof (Nat.div_mod_eq i 2) as E1. lia. }
  rewrite Hreads, Hprev. split.
  - intros [Hne | Hev].
    + destruct (Nat.eqb_spec i (iters * 2 - 1)) as [E | _]; [contradiction | reflexivity].
    + destruct (Nat.eqb_spec i (iters * 2 - 1)) as [E | _]; [ | reflexivity].
      rewrite (Hodd E), Hev. reflexivity.
  - intros E Hiters. rewrite (Hodd E). rewrite <- E, Nat.eqb_refl, Hiters. split; reflexivity.
Qed.

Lemma transform_chain_witness :
  (nth_error (transformPasses 7) 13 = Some (transformPass 7 13)
   /\ nth_error (transformPasses 7) (13 - 1) = Some (transformPass 7 (13 - 1)))
  /\ (13%nat <> (7 * 2 - 1)%nat \/ (7 mod 2 = 0)%nat ->
        OceanFFT.pass_reads (transformPass 7 13)
        = [OceanFFT.pass_target (transformPass 7 (13 - 1))])
  /\ (13%nat = (7 * 2 - 1)%nat -> (7 mod 2 = 1)%nat ->
        OceanFFT.pass_reads (transformPass 7 13) = [OceanFFT.pongTransformFramebuffer]
        /\ OceanFFT.pass_target (transformPass 7 (13 - 1))
           = OceanFFT.pingTransformFramebuffer).
Proof.
  apply (transform_chain 7 13). cbn. lia.
Defined.

(** ** OceanFFT: the time step *)

Lemma clampedDeltaTime_bounds (dt : Q) :
  ((1 # 240) <= clampedDeltaTime dt /\ clampedDeltaTime dt <= (1 # 10))%Q.
Proof.
  unfold clampedDeltaTime, JS.min, JS.max. split.
  - apply Q.min_glb; [discriminate | apply Q.le_max_l].
  - apply Q.le_min_l.
Qed.

Lemma clampedDeltaTime_cases (dt : Q) :
  ((dt < (1 # 240) -> clampedDeltaTime dt == (1 # 240))
   /\ ((1 # 10) < dt -> clampedDeltaTime dt == (1 # 10))
   /\ ((1 # 240) <= dt /\ dt <= (1 # 10) -> clampedDeltaTime dt == dt))%Q.
Proof.
  unfold clampedDeltaTime, JS.min, JS.max. repeat split.
  - intros H. rewrite Q.max_l by (apply Qlt_le_weak; exact H).
    apply Q.min_r. discriminate.
  - intros H.
    assert (Hm : (Qmax (1 # 240) dt == dt)%Q).
    { apply Q.max_r. apply Qlt_le_weak.
      apply Qlt_trans with (1 # 10)%Q; [reflexivity | exact H]. }
    rewrite Hm. apply Q.min_l. apply Qlt_le_weak; exact H.
  - intros [Hlo Hhi]. rewrite Q.max_r by exact Hlo.
    apply Q.min_r. exact Hhi.
Qed.

(** C7.  Whatever [deltaTime] is passed, [update] returns (it has no failing
    path), stores [min(0.1, max(1/240, deltaTime))] as the time step, and
    hands exactly that value to the one phase pass it submits.  The stored
    step lies in [[1/240, 0.1]]; it is [1/240] for smaller inputs, [0.1] for
    larger ones and the input itself in between. *)
Theorem OceanFFT_update_clamps_deltaTime (dt : Q) (o : OceanFFT.t) :
  let o' := fst (OceanFFT.update dt o) in
  let passes := snd (OceanFFT.update dt o) in
  let used := OceanFFT.deltaTime o' in
  ((1 # 240) <= used /\ used <= (1 # 10))%Q
  /\ (dt < (1 # 240) -> used == (1 # 240))%Q
  /\ ((1 # 10) < dt -> used == (1 # 10))%Q
  /\ ((1 # 240) <= dt /\ dt <= (1 # 10) -> used == dt)%Q
  /\ (exists p, In p passes /\ isPhase p = true)
  /\ (forall p, In p passes -> isPhase p = true ->
        OceanFFT.pass_deltaTime p = Some used).
Proof.
  intros o' passes used.
  assert (Hused : used = clampedDeltaTime dt).
  { unfold used, o'. rewrite update_unfold. cbn.
    destruct (OceanFFT.needsSpectrumInit o); reflexivity. }
  assert (Hphase : filter isPhase passes
                   = [phasePass (OceanFFT.set_deltaTime (clampedDeltaTime dt) o)])
    by apply update_phase_passes.
  rewrite Hused.
  destruct (clampedDeltaTime_cases dt) as [Hlo [Hhi Hmid]].
  repeat split; try assumption; try apply clampedDeltaTime_bounds.
  - exists (phasePass (OceanFFT.set_deltaTime (clampedDeltaTime dt) o)).
    apply filter_In. rewrite Hphase. left. reflexivity.
  - intros p Hin Hp.
    assert (Hp' : In p (filter isPhase passes)) by (apply filter_In; split; assumption).
    rewrite Hphase in Hp'. destruct Hp' as [<- | []]. reflexivity.
Qed.

(** ** The phase shader *)

Lemma two_PI_pos : (0 < 2 * PI)%R.
Proof. pose proof PI_RGT_0. lra. Qed.

Lemma glsl_mod_range (a b : R) :
  (0 < b)%R -> (0 <= FFTShaders.glsl_mod a b < b)%R.
Proof.
  intros Hb. unfold FFTShaders.glsl_mod, FFTShaders.glsl_floor.
  destruct (base_Int_part (a / b)) as [Hle Hgt].
  set (f := IZR (Int_part (a / b))) in *.
  assert (Ha : (a = b * (a / b))%R) by (field; lra).
  set (r := (a / b)%R) in *.
  rewrite Ha.
  replace (b * r - b * f)%R with (b * (r - f))%R by ring.
  split.
  - apply Rmult_le_pos; lra.
  - assert (b * (r - f) < b * 1)%R by (apply Rmult_lt_compat_l; lra). lra.
Qed.


Lemma phase_pass_in_range (dt N size : R) (phases : FFTShaders.Field) (x y : Z) :
  (0 <= FFTShaders.phase_pass dt N size phases x y < 2 * PI)%R.
Proof.
  unfold FFTShaders.phase_pass, FFTShaders.phase_main.
  apply glsl_mod_range. exact two_PI_pos.
Qed.

Lemma seedPhase_in_range (random : Z -> Z -> R) :
  (forall x y, 0 <= random x y < 1)%R ->
  forall x y, (0 <= FFTShaders.seedPhase random x y < 2 * PI)%R.
Proof.
  intros Hr x y. unfold FFTShaders.seedPhase.
  pose proof PI_RGT_0 as Hpi. destruct (Hr x y) as [H0 H1].
  split.
  - apply Rmult_le_pos; [apply Rmult_le_pos | ]; lra.
  - assert (random x y * PI < 1 * PI)%R by (apply Rmult_lt_compat_r; lra). lra.
Qed.

Lemma evolve_in_range (N size : R) (steps : list R) :
  forall phases : FFTShaders.Field,
    (forall x y, 0 <= phases x y < 2 * PI)%R ->
    forall x y, (0 <= FFTShaders.evolve N size steps phases x y < 2 * PI)%R.
Proof.
  induction steps as [ | dt rest IH]; intros phases Hin x y; cbn.
  - apply Hin.
  - apply IH. intros x' y'. apply phase_pass_in_range.
Qed.



(** ** The phase textures across updates *)

Lemma runPass_not_phase (N s : R) (p : OceanFFT.Pass) (mem : PhaseMemory.t) :
  isPhase p = false -> PhaseMemory.runPass N s p mem = mem.
Proof.
  unfold isPhase, PhaseMemory.runPass.
  destruct (OceanFFT.pass_material p); intros H; (discriminate H || reflexivity).
Qed.

Lemma runPasses_only_phase (N s : R) (ps : list OceanFFT.Pass) :
  forall mem : PhaseMemory.t,
    PhaseMemory.runPasses N s ps mem
    = PhaseMemory.runPasses N s (filter isPhase ps) mem.
Proof.
  induction ps as [ | p ps IH]; intros mem; [reflexivity | ].
  cbn [PhaseMemory.runPasses filter].
  destruct (isPhase p) eqn:Hp.
  - cbn [PhaseMemory.runPasses]. apply IH.
  - rewrite runPass_not_phase by exact Hp. apply IH.
Qed.

Lemma update_keeps_resolution_and_size (dt : Q) (o : OceanFFT.t) :
  OceanFFT.resolution (fst (OceanFFT.update dt o)) = OceanFFT.resolution o
  /\ OceanFFT.size (fst (OceanFFT.update dt o)) = OceanFFT.size o.
Proof.
  rewrite update_unfold. cbn.
  destruct (OceanFFT.needsSpectrumInit o); split; reflexivity.
Qed.

(** One [update] advances the current phase texture by one pass of the
    shader with the clamped time step. *)
Lemma frame_current (dt : Q) (o : OceanFFT.t) (mem : PhaseMemory.t) :
  PhaseMemory.current (PhaseMemory.frame dt (o, mem))
  = FFTShaders.phase_pass (Q2R (clampedDeltaTime dt))
      (IZR (OceanFFT.resolution o)) (Q2R (OceanFFT.size o))
      (PhaseMemory.current (o, mem)).
Proof.
  unfold PhaseMemory.frame.
  destruct (OceanFFT.update dt o) as [o' ps] eqn:Hup.
  assert (Hps : filter isPhase ps
                = [phasePass (OceanFFT.set_deltaTime (clampedDeltaTime dt) o)]).
  { pose proof (update_phase_passes dt o) as H. rewrite Hup in H. exact H. }
  assert (Ho' : OceanFFT.initialized o' = true
                /\ OceanFFT.pingPhase o' = negb (OceanFFT.pingPhase o)).
  { pose proof (update_unfold dt o) as H. cbv zeta in H. rewrite Hup in H.
    injection H as -> _. split; reflexivity. }
  destruct Ho' as [Hini Hflag].
  rewrite runPasses_only_phase, Hps.
  unfold PhaseMemory.current. rewrite Hini, Hflag. cbn [negb].
  cbn. unfold PhaseMemory.write.
  destruct (OceanFFT.initialized o), (OceanFFT.pingPhase o); reflexivity.
Qed.

(** X3 (phase ping-pong as one evolving field).  After any sequence of [update]
    calls, the phase texture selected by [pingPhase] holds the field that
    was current before them, advanced by one pass of the phase shader per
    call with that call's clamped time step. *)
Theorem phase_textures_follow_evolve (dts : list Q) :
  forall (o : OceanFFT.t) (mem : PhaseMemory.t),
    PhaseMemory.current (PhaseMemory.frames dts (o, mem))
    = FFTShaders.evolve (IZR (OceanFFT.resolution o)) (Q2R (OceanFFT.size o))
        (List.map (fun dt => Q2R (clampedDeltaTime dt)) dts)
        (PhaseMemory.current (o, mem)).
Proof.
  induction dts as [ | dt rest IH]; intros o mem; [reflexivity | ].
  cbn [PhaseMemory.frames List.map FFTShaders.evolve].
  rewrite <- frame_current.
  unfold PhaseMemory.frame.
  pose proof (update_keeps_resolution_and_size dt o) as [Hres Hsize].
  destruct (OceanFFT.update dt o) as [o' ps]. cbn [fst] in Hres, Hsize.
  rewrite IH, Hres, Hsize. reflexivity.
Qed.

(** X4.  From a fresh instance whose seed texture was filled from
    [Math.random()], every value of the current phase texture lies in
    [[0, 2 PI)] after any sequence of [update] calls. *)
Theorem phase_textures_stay_in_range
  (random : Z -> Z -> R) (dts : list Q) (o : OceanFFT.t) (mem : PhaseMemory.t) :
  OceanFFT.initialized o = false ->
  mem OceanFFT.pingPhaseTexture = FFTShaders.seedPhase random ->
  (forall x y, 0 <= random x y < 1)%R ->
  forall x y,
    (0 <= PhaseMemory.current (PhaseMemory.frames dts (o, mem)) x y < 2 * PI)%R.
Proof.
  intros Hfresh Hseed Hrandom x y.
  rewrite phase_textures_follow_evolve.
  apply evolve_in_range.
  unfold PhaseMemory.current. rewrite Hfresh. cbn [negb]. rewrite Hseed.
  now apply seedPhase_in_range.
Qed.

Lemma default_fft_is_constructed :
  OceanFFT.constructor
    {| OceanFFT.opt_resolution := None; OceanFFT.opt_size := None;
       OceanFFT.opt_choppiness := None; OceanFFT.opt_windSpeed := None;
       OceanFFT.opt_windDirection := None; OceanFFT.opt_useHalfFloat := None |}
  = JS.Normal default_fft.
Proof. reflexivity. Qed.

Lemma phase_textures_stay_in_range_witness :
  (0 <= PhaseMemory.current
          (PhaseMemory.frames [(1 # 60)%Q; 5%Q] (default_fft, seeded_memory)) 3%Z 5%Z
   < 2 * PI)%R.
Proof.
  apply (phase_textures_stay_in_range (fun _ _ => (1 / 2)%R) [(1 # 60)%Q; 5%Q]
           default_fft seeded_memory).
  - reflexivity.
  - reflexivity.
  - intros x y. lra.
Defined.

(** ** OceanLODGrid: construction *)

Lemma ring_meshes (i : nat) (inner outer : Q) (g : OceanLODGrid.t) :
  List.length (OceanLODGrid.meshes (OceanLODGrid.ring i inner outer g))
  = (List.length (OceanLODGrid.meshes g) + 4)%nat.
Proof.
  unfold OceanLODGrid.ring. cbn. rewrite !length_app. cbn. lia.
Qed.

Lemma rings_meshes (rest : list Q) :
  forall (i : nat) (inner : Q) (g : OceanLODGrid.t),
    List.length (OceanLODGrid.meshes (OceanLODGrid.rings i inner rest g))
    = (List.length (OceanLODGrid.meshes g) + 4 * List.length rest)%nat.
Proof.
  induction rest as [ | outer rest IH]; intros i inner g; cbn [OceanLODGrid.rings].
  - cbn. lia.
  - rewrite IH, ring_meshes. cbn [List.length]. lia.
Qed.

Lemma build_throws (g : OceanLODGrid.t) :
  levelsTooShort (OceanLODGrid.levels g) = true ->
  OceanLODGrid.build g = (g, JS.Throw JS.ErrorLodLevels).
Proof.
  unfold levelsTooShort, OceanLODGrid.build.
  destruct (OceanLODGrid.levels g) as [ls | ]; [ | reflexivity].
  intros ->. reflexivity.
Qed.

Lemma build_returns (g : OceanLODGrid.t) (ls : list Q) :
  OceanLODGrid.levels g = Some ls ->
  (2 <= List.length ls)%nat ->
  exists g',
    OceanLODGrid.build g = (g', JS.Normal tt)
    /\ List.length (OceanLODGrid.meshes g')
       = (List.length (OceanLODGrid.meshes g) + 1 + 4 * (List.length ls - 1))%nat.
Proof.
  intros Hls Hlen. unfold OceanLODGrid.build. rewrite Hls.
  destruct (Nat.ltb_spec (List.length ls) 2) as [Hlt | _]; [lia | ].
  destruct ls as [ | centerSize rest]; [cbn in Hlen; lia | ].
  eexists. split; [reflexivity | ].
  rewrite rings_meshes. cbn. rewrite length_app. cbn. lia.
Qed.

Lemma rings_configuration (rest : list Q) :
  forall (i : nat) (inner : Q) (g : OceanLODGrid.t),
    sameConfiguration g (OceanLODGrid.rings i inner rest g)
    /\ OceanLODGrid.group_scale (OceanLODGrid.rings i inner rest g)
       = OceanLODGrid.group_scale g
    /\ OceanLODGrid.group_position (OceanLODGrid.rings i inner rest g)
       = OceanLODGrid.group_position g.
Proof.
  induction rest as [ | outer rest IH]; intros i inner g; cbn [OceanLODGrid.rings].
  - unfold sameConfiguration. repeat split; reflexivity.
  - destruct (IH (S i) outer (OceanLODGrid.ring i inner outer g))
      as [[H1 [H2 [H3 [H4 H5]]]] [H6 H7]].
    unfold sameConfiguration.
    rewrite H1, H2, H3, H4, H5, H6, H7. repeat split; reflexivity.
Qed.

Lemma build_configuration (g : OceanLODGrid.t) :
  let g' := fst (OceanLODGrid.build g) in
  sameConfiguration g g'
  /\ OceanLODGrid.group_scale g' = OceanLODGrid.group_scale g
  /\ OceanLODGrid.group_position g' = OceanLODGrid.group_position g.
Proof.
  unfold OceanLODGrid.build.
  destruct (OceanLODGrid.levels g) as [ls | ] eqn:Hls;
    [ | unfold sameConfiguration; repeat split; reflexivity].
  destruct (List.length ls <? 2)%nat;
    [unfold sameConfiguration; repeat split; reflexivity | ].
  destruct ls as [ | centerSize rest];
    [unfold sameConfiguration; repeat split; reflexivity | ].
  cbn [fst].
  match goal with
  | |- context [OceanLODGrid.rings 1 centerSize rest ?g1] =>
      destruct (rings_configuration rest 1 centerSize g1)
        as [[H1 [H2 [H3 [H4 H5]]]] [H6 H7]]
  end.
  unfold sameConfiguration.
  rewrite H1, H2, H3, H4, H5, H6, H7. repeat split; reflexivity.
Qed.

Lemma constructor_returns (a : OceanLODGrid.Args) (ls : list Q) :
  OceanLODGrid.arg_levels a = Some ls ->
  (2 <= List.length ls)%nat ->
  exists g,
    OceanLODGrid.constructor a = JS.Normal g
    /\ List.length (OceanLODGrid.meshes g) = (1 + 4 * (List.length ls - 1))%nat
    /\ sameConfiguration (OceanLODGrid.init a) g.
Proof.
  intros Hls Hlen.
  destruct (build_returns (OceanLODGrid.init a) ls Hls Hlen) as [g [Hb Hn]].
  pose proof (build_configuration (OceanLODGrid.init a)) as [Hcfg _].
  rewrite Hb in Hcfg. cbn [fst] in Hcfg.
  exists g. unfold OceanLODGrid.constructor. rewrite Hb.
  split; [reflexivity | split; [ | exact Hcfg]].
  rewrite Hn. reflexivity.
Qed.

(** C2 (as the code has it).  [new OceanLODGrid] throws exactly when
    [levels] is not an array or has fewer than two entries.  When it throws,
    [#build] has added no mesh: the mesh list and the group are still
    empty.  For every array of two or more entries, increasing or not, it
    returns a grid with one centre patch and four strips per further
    level. *)
Theorem OceanLODGrid_constructor_throws_iff_too_short (a : OceanLODGrid.Args) :
  JS.threw (OceanLODGrid.constructor a) = levelsTooShort (OceanLODGrid.arg_levels a)
  /\ (levelsTooShort (OceanLODGrid.arg_levels a) = true ->
        let reached := fst (OceanLODGrid.build (OceanLODGrid.init a)) in
        OceanLODGrid.meshes reached = [] /\ OceanLODGrid.group_children reached = [])
  /\ (forall ls, OceanLODGrid.arg_levels a = Some ls -> (2 <= List.length ls)%nat ->
        exists g, OceanLODGrid.constructor a = JS.Normal g
                  /\ List.length (OceanLODGrid.meshes g) = (1 + 4 * (List.length ls - 1))%nat).
Proof.
  split; [ | split].
  - unfold OceanLODGrid.constructor.
    destruct (levelsTooShort (OceanLODGrid.arg_levels a)) eqn:E.
    + rewrite build_throws by exact E. reflexivity.
    + unfold levelsTooShort in E.
      destruct (OceanLODGrid.arg_levels a) as [ls | ] eqn:Hls; [ | discriminate].
      apply Nat.ltb_ge in E.
      destruct (build_returns (OceanLODGrid.init a) ls Hls E) as [g' [-> _]].
      reflexivity.
  - intros E. rewrite build_throws by exact E. split; reflexivity.
  - intros ls Hls Hlen.
    destruct (constructor_returns a ls Hls Hlen) as [g [Hc [Hn _]]].
    exists g. split; assumption.
Qed.

(** C2 as stated fails: the level sizes 512, 256 are not increasing, yet the
    grid is built. *)
Lemma OceanLODGrid_accepts_decreasing_levels :
  ~ (JS.threw (OceanLODGrid.constructor args_decreasing_levels) = true
     <-> ((List.length [512; 256]%Q < 2)%nat \/ ~ strictlyIncreasing [512; 256]%Q)).
Proof.
  intros [_ H].
  assert (Hthrew : JS.threw (OceanLODGrid.constructor args_decreasing_levels) = true).
  { apply H. right. intros [Hlt _]. discriminate Hlt. }
  vm_compute in Hthrew. discriminate Hthrew.
Qed.

(** ** OceanLODGrid: following the camera *)

Lemma floor_snap_spec (c s : Q) :
  (0 < s)%Q ->
  let m := (inject_Z (JS.floor (c / s)) * s)%Q in
  (m <= c /\ c < m + s)%Q.
Proof.
  intros Hs m. unfold m, JS.floor.
  assert (Hne : ~ (s == 0)%Q) by (intros E; rewrite E in Hs; discriminate Hs).
  assert (Hc : (c / s * s == c)%Q) by (field; exact Hne).
  split.
  - rewrite <- Hc at 2. apply Qmult_le_compat_r; [apply Qfloor_le | now apply Qlt_le_weak].
  - pose proof (Qlt_floor (c / s)) as Hlt.
    rewrite inject_Z_plus in Hlt.
    apply (Qmult_lt_r _ _ s Hs) in Hlt.
    rewrite Hc in Hlt.
    eapply Qlt_le_trans; [exact Hlt | ].
    rewrite Qmult_plus_distr_l. rewrite Qmult_1_l. apply Qle_refl.
Qed.

(** C3 (as the code has it).  For a positive base cell size, [update] moves
    the group's x and z to the greatest multiple of the cell size that does
    not exceed the camera's x and z: a multiple [m] with
    [m <= p < m + cell].  The group's height and scale, its meshes and the
    grid's configuration are unchanged. *)
Theorem OceanLODGrid_update_snaps_to_floor_multiple
  (cameraPosition : OceanLODGrid.Vec3) (g : OceanLODGrid.t) :
  (0 < OceanLODGrid.snapSize g)%Q ->
  let g' := OceanLODGrid.update cameraPosition g in
  let s := OceanLODGrid.snapSize g in
  let px := OceanLODGrid.vx (OceanLODGrid.group_position g') in
  let pz := OceanLODGrid.vz (OceanLODGrid.group_position g') in
  ((exists n : Z, px = inject_Z n * s)
   /\ px <= OceanLODGrid.vx cameraPosition /\ OceanLODGrid.vx cameraPosition < px + s)%Q
  /\ ((exists n : Z, pz = inject_Z n * s)
      /\ pz <= OceanLODGrid.vz cameraPosition /\ OceanLODGrid.vz cameraPosition < pz + s)%Q
  /\ OceanLODGrid.vy (OceanLODGrid.group_position g')
     = OceanLODGrid.vy (OceanLODGrid.group_position g)
  /\ OceanLODGrid.group_scale g' = OceanLODGrid.group_scale g
  /\ OceanLODGrid.group_children g' = OceanLODGrid.group_children g
  /\ OceanLODGrid.meshes g' = OceanLODGrid.meshes g
  /\ sameConfiguration g g'.
Proof.
  intros Hs g' s px pz. unfold sameConfiguration.
  destruct (floor_snap_spec (OceanLODGrid.vx cameraPosition) s Hs) as [Hx1 Hx2].
  destruct (floor_snap_spec (OceanLODGrid.vz cameraPosition) s Hs) as [Hz1 Hz2].
  repeat split; try reflexivity; try assumption.
  - eexists. reflexivity.
  - eexists. reflexivity.
Qed.

Lemma OceanLODGrid_update_snaps_to_floor_multiple_witness :
  let g' := OceanLODGrid.update camera_at_three_quarters unit_cell_grid in
  let s := OceanLODGrid.snapSize unit_cell_grid in
  let px := OceanLODGrid.vx (OceanLODGrid.group_position g') in
  let pz := OceanLODGrid.vz (OceanLODGrid.group_position g') in
  ((exists n : Z, px = inject_Z n * s)
   /\ px <= (3 # 4) /\ (3 # 4) < px + s)%Q
  /\ ((exists n : Z, pz = inject_Z n * s) /\ pz <= 0 /\ 0 < pz + s)%Q
  /\ OceanLODGrid.vy (OceanLODGrid.group_position g')
     = OceanLODGrid.vy (OceanLODGrid.group_position unit_cell_grid)
  /\ OceanLODGrid.group_scale g' = OceanLODGrid.group_scale unit_cell_grid
  /\ OceanLODGrid.group_children g' = OceanLODGrid.group_children unit_cell_grid
  /\ OceanLODGrid.meshes g' = OceanLODGrid.meshes unit_cell_grid
  /\ sameConfiguration unit_cell_grid g'.
Proof.
  apply (OceanLODGrid_update_snaps_to_floor_multiple camera_at_three_quarters unit_cell_grid).
  reflexivity.
Defined.

(** C3 as stated fails: with cell size 1 and the camera at x = 3/4 the grid
    goes to x = 0, while the multiple 1 is nearer. *)
Lemma OceanLODGrid_update_not_nearest :
  let px := OceanLODGrid.vx (OceanLODGrid.group_position
                               (OceanLODGrid.update camera_at_three_quarters unit_cell_grid)) in
  ~ (forall n : Z,
       (Qabs ((3 # 4) - px) <= Qabs ((3 # 4) - inject_Z n * OceanLODGrid.snapSize unit_cell_grid))%Q).
Proof.
  intros px H. specialize (H 1%Z). vm_compute in H. apply H. reflexivity.
Qed.

(** ** OceanLODGrid: the footprint scale *)

Lemma clampedLodScale_spec (scale : Q) :
  ((1 # 2) <= clampedLodScale scale /\ clampedLodScale scale <= (5 # 2))%Q
  /\ (scale < (1 # 2) -> clampedLodScale scale == (1 # 2))%Q
  /\ ((5 # 2) < scale -> clampedLodScale scale == (5 # 2))%Q
  /\ ((1 # 2) <= scale /\ scale <= (5 # 2) -> clampedLodScale scale == scale)%Q.
Proof.
  unfold clampedLodScale, JS.max, JS.min. repeat split.
  - apply Q.le_max_l.
  - apply Q.max_lub; [discriminate | apply Q.le_min_l].
  - intros H. apply Q.max_l.
    eapply Qle_trans; [apply Q.le_min_r | now apply Qlt_le_weak].
  - intros H. rewrite Q.min_l by (now apply Qlt_le_weak).
    apply Q.max_r. discriminate.
  - intros [Hlo Hhi]. rewrite Q.min_r by exact Hhi.
    apply Q.max_r. exact Hlo.
Qed.

(** C10.  [setLodScale(s)] sets the group's x and z scale to [s] clamped to
    [[0.5, 2.5]] and its y scale to exactly 1; the group's position, the
    meshes (and so every mesh height) and the grid's configuration are
    unchanged. *)
Theorem OceanLODGrid_setLodScale_clamps_footprint (scale : Q) (g : OceanLODGrid.t) :
  let g' := OceanLODGrid.setLodScale scale g in
  let c := OceanLODGrid.vx (OceanLODGrid.group_scale g') in
  OceanLODGrid.vz (OceanLODGrid.group_scale g') = c
  /\ OceanLODGrid.vy (OceanLODGrid.group_scale g') = 1%Q
  /\ ((1 # 2) <= c /\ c <= (5 # 2))%Q
  /\ (scale < (1 # 2) -> c == (1 # 2))%Q
  /\ ((5 # 2) < scale -> c == (5 # 2))%Q
  /\ ((1 # 2) <= scale /\ scale <= (5 # 2) -> c == scale)%Q
  /\ OceanLODGrid.group_position g' = OceanLODGrid.group_position g
  /\ OceanLODGrid.group_children g' = OceanLODGrid.group_children g
  /\ OceanLODGrid.meshes g' = OceanLODGrid.meshes g
  /\ sameConfiguration g g'.
Proof.
  intros g' c. unfold sameConfiguration.
  change c with (clampedLodScale scale).
  destruct (clampedLodScale_spec scale) as [Hb [Hlo [Hhi Hmid]]].
  repeat split; try reflexivity; try assumption; apply Hb.
Qed.

(** ** OceanSystem: presets *)

Lemma teardown_qualityPreset (s : OceanSystem.t) :
  OceanSystem.qualityPreset (OceanSystem.teardown s) = OceanSystem.qualityPreset s.
Proof.
  unfold OceanSystem.teardown.
  destruct (OceanSystem.lodGrid s) as [[rg g] | ]; cbn;
    destruct (OceanSystem.material s) as [m | ]; cbn;
    destruct (OceanSystem.fft s) as [[rf f] | ]; reflexivity.
Qed.

Lemma teardown_quality (s : OceanSystem.t) :
  OceanSystem.quality (OceanSystem.teardown s) = OceanSystem.quality s.
Proof.
  unfold OceanSystem.teardown.
  destruct (OceanSystem.lodGrid s) as [[rg g] | ]; cbn;
    destruct (OceanSystem.material s) as [m | ]; cbn;
    destruct (OceanSystem.fft s) as [[rf f] | ]; reflexivity.
Qed.

Lemma applyOceanParams_qualityPreset (s : OceanSystem.t) :
  OceanSystem.qualityPreset (OceanSystem.applyOceanParams s) = OceanSystem.qualityPreset s.
Proof.
  unfold OceanSystem.applyOceanParams.
  destruct (OceanSystem.fft s) as [[rf f] | ]; [ | reflexivity].
  destruct (OceanSystem.uniforms s) as [u | ]; [ | reflexivity].
  cbn. destruct (OceanSystem.lodGrid s) as [[rg g] | ]; reflexivity.
Qed.

Lemma rebuild_qualityPreset (name : string) (s : OceanSystem.t) :
  OceanSystem.qualityPreset (fst (OceanSystem.rebuild name s)) = name.
Proof.
  unfold OceanSystem.rebuild.
  set (s0 := OceanSystem.teardown _).
  assert (H0 : OceanSystem.qualityPreset s0 = name)
    by (unfold s0; rewrite teardown_qualityPreset; reflexivity).
  destruct (OceanFFT.constructor _) as [f | e]; [ | exact H0].
  unfold OceanSystem.alloc. cbv beta iota zeta.
  destruct (OceanLODGrid.constructor _) as [g | e]; [ | exact H0].
  cbn [fst]. rewrite applyOceanParams_qualityPreset. exact H0.
Qed.

(** C8.  After [setQualityPreset(name)] has been called, however that call
    ended, a second [setQualityPreset(name)] returns at once with the whole
    state as it was: the same FFT pipeline, material and LOD grid objects,
    no object created and none disposed. *)
Theorem OceanSystem_setQualityPreset_twice (name : string) (s : OceanSystem.t) :
  let s1 := fst (OceanSystem.setQualityPreset name s) in
  let s2 := fst (OceanSystem.setQualityPreset name s1) in
  OceanSystem.setQualityPreset name s1 = (s1, JS.Normal tt)
  /\ OceanSystem.fft s2 = OceanSystem.fft s1
  /\ OceanSystem.material s2 = OceanSystem.material s1
  /\ OceanSystem.lodGrid s2 = OceanSystem.lodGrid s1
  /\ OceanSystem.nextRef s2 = OceanSystem.nextRef s1
  /\ OceanSystem.disposed s2 = OceanSystem.disposed s1.
Proof.
  intros s1 s2.
  assert (Hname : OceanSystem.qualityPreset s1 = name).
  { unfold s1, OceanSystem.setQualityPreset.
    destruct (String.eqb_spec name (OceanSystem.qualityPreset s)) as [E | NE].
    - symmetry. exact E.
    - apply rebuild_qualityPreset. }
  assert (Hnoop : OceanSystem.setQualityPreset name s1 = (s1, JS.Normal tt)).
  { unfold OceanSystem.setQualityPreset. rewrite Hname, String.eqb_refl. reflexivity. }
  unfold s2. rewrite Hnoop. repeat split; reflexivity.
Qed.

(** C9 at the name ["constructor"].  It is none of the three presets, but
    the lookup finds [Object.prototype.constructor], the fallback to
    [balanced] is not taken, [levelSizes] is [undefined], and construction
    throws from [OceanLODGrid]'s [#build], with the FFT pipeline and the
    material already created and no grid. *)
Theorem OceanSystem_constructor_throws_on_inherited_name :
  let r := OceanSystem.constructor (Some "constructor"%string) OceanSystem.DEFAULT_PARAMS in
  OceanSystem.isPresetName "constructor" = false
  /\ snd r = JS.Throw JS.ErrorLodLevels
  /\ OceanSystem.qualityPreset (fst r) = "constructor"%string
  /\ OceanSystem.quality (fst r) = OceanSystem.inheritedMember
  /\ OceanSystem.quality (fst r) <> OceanSystem.balanced
  /\ OceanSystem.lodGrid (fst r) = None
  /\ OceanSystem.material (fst r) = Some 1%nat
  /\ (exists f, OceanSystem.fft (fst r) = Some (0%nat, f)).
Proof.
  cbv zeta. repeat split; try reflexivity.
  - discriminate.
  - eexists. reflexivity.
Qed.


Lemma balanced_fft (ch ws : Q) (wd : R) :
  exists f,
    OceanFFT.constructor
      {| OceanFFT.opt_resolution := OceanSystem.fftResolution OceanSystem.balanced;
         OceanFFT.opt_size := OceanSystem.simulationSize OceanSystem.balanced;
         OceanFFT.opt_choppiness := Some ch;
         OceanFFT.opt_windSpeed := Some ws;
         OceanFFT.opt_windDirection := Some wd;
         OceanFFT.opt_useHalfFloat := Some true |} = JS.Normal f
    /\ OceanFFT.resolution f = 256%Z
    /\ OceanFFT.size f = 980%Q.
Proof. eexists. split; [reflexivity | split; reflexivity]. Qed.

Lemma balanced_grid (rm : OceanLODGrid.Ref) :
  exists g,
    OceanLODGrid.constructor
      {| OceanLODGrid.arg_material := rm;
         OceanLODGrid.arg_levels := OceanSystem.levelSizes OceanSystem.balanced;
         OceanLODGrid.arg_baseCellSize := OceanSystem.baseCellSize OceanSystem.balanced;
         OceanLODGrid.arg_ringOverlap := OceanSystem.ringOverlap OceanSystem.balanced |}
    = JS.Normal g
    /\ OceanLODGrid.levels g = OceanSystem.levelSizes OceanSystem.balanced
    /\ OceanLODGrid.baseCellSize g = (12 # 10)%Q
    /\ OceanLODGrid.ringOverlap g = (5 # 10)%Q
    /\ List.length (OceanLODGrid.meshes g) = 25%nat.
Proof.
  match goal with
  | |- exists g, OceanLODGrid.constructor ?a = _ /\ _ =>
      destruct (constructor_returns a [256; 512; 1024; 2048; 4096; 8192; 16384]%Q
                  eq_refl)
        as [g [Hg [Hn [_ [Hl [Hb [Ho _]]]]]]]; [cbn; lia | ]
  end.
  exists g. repeat split; assumption.
Qed.

(** What [rebuild] builds when the lookup falls back to [balanced]. *)
Lemma rebuild_with_balanced (name : string) (s : OceanSystem.t) :
  OceanSystem.qualityFor name = OceanSystem.balanced ->
  let r := OceanSystem.rebuild name s in
  snd r = JS.Normal tt
  /\ OceanSystem.quality (fst r) = OceanSystem.balanced
  /\ (exists rf f, OceanSystem.fft (fst r) = Some (rf, f)
                   /\ OceanFFT.resolution f = 256%Z
                   /\ OceanFFT.size f = 980%Q)
  /\ (exists rg g, OceanSystem.lodGrid (fst r) = Some (rg, g)
                   /\ OceanLODGrid.levels g = OceanSystem.levelSizes OceanSystem.balanced
                   /\ OceanLODGrid.baseCellSize g = (12 # 10)%Q
                   /\ OceanLODGrid.ringOverlap g = (5 # 10)%Q
                   /\ List.length (OceanLODGrid.meshes g) = 25%nat).
Proof.
  intros Hq r. unfold r, OceanSystem.rebuild. clear r. rewrite Hq.
  set (s0 := OceanSystem.teardown _).
  assert (Hq0 : OceanSystem.quality s0 = OceanSystem.balanced)
    by (unfold s0; rewrite teardown_quality; reflexivity).
  clearbody s0. rewrite Hq0.
  destruct (balanced_fft (OceanSystem.choppiness (OceanSystem.params s0))
              (OceanSystem.windSpeed (OceanSystem.params s0))
              (OceanSystem.toRadians (OceanSystem.windDirection (OceanSystem.params s0))))
    as [f [Hf [Hres Hsize]]].
  rewrite Hf. unfold OceanSystem.alloc. cbv beta iota zeta.
  match goal with
  | |- context [OceanLODGrid.constructor {| OceanLODGrid.arg_material := ?rm |}] =>
      destruct (balanced_grid rm) as [g [Hg [Hl [Hb [Ho Hn]]]]]
  end.
  rewrite Hg. cbn [fst snd].
  unfold OceanSystem.applyOceanParams.
  cbn [OceanSystem.fft OceanSystem.uniforms OceanSystem.lodGrid OceanSystem.quality
       OceanSystem.params OceanSystem.set_root_children OceanSystem.set_lodGrid
       OceanSystem.set_material OceanSystem.set_fft OceanSystem.set_uniforms
       OceanSystem.material].
  split; [reflexivity | ]. split; [exact Hq0 | ]. split.
  - do 2 eexists. split; [reflexivity | ]. split; [exact Hres | exact Hsize].
  - do 2 eexists. split; [reflexivity | ]. repeat split; assumption.
Qed.

(** X1 (unknown names).  For a name that is neither a preset nor a property of
    [Object.prototype], [rebuild] returns, keeps the name in
    [qualityPreset], and builds everything from the [balanced] values; a
    following [setQualityPreset] with that name does nothing. *)
Theorem OceanSystem_rebuild_unknown_name_uses_balanced (name : string) (s : OceanSystem.t) :
  OceanSystem.QUALITY_PRESETS name = None ->
  let r := OceanSystem.rebuild name s in
  snd r = JS.Normal tt
  /\ OceanSystem.qualityPreset (fst r) = name
  /\ OceanSystem.quality (fst r) = OceanSystem.balanced
  /\ (exists rf f, OceanSystem.fft (fst r) = Some (rf, f)
                   /\ OceanFFT.resolution f = 256%Z
                   /\ OceanFFT.size f = 980%Q)
  /\ (exists rg g, OceanSystem.lodGrid (fst r) = Some (rg, g)
                   /\ OceanLODGrid.levels g = OceanSystem.levelSizes OceanSystem.balanced
                   /\ OceanLODGrid.baseCellSize g = (12 # 10)%Q
                   /\ OceanLODGrid.ringOverlap g = (5 # 10)%Q
                   /\ List.length (OceanLODGrid.meshes g) = 25%nat)
  /\ OceanSystem.setQualityPreset name (fst r) = (fst r, JS.Normal tt).
Proof.
  intros Hunknown r.
  assert (Hname : OceanSystem.qualityPreset (fst r) = name)
    by apply rebuild_qualityPreset.
  assert (Hq : OceanSystem.qualityFor name = OceanSystem.balanced)
    by (unfold OceanSystem.qualityFor; rewrite Hunknown; reflexivity).
  destruct (rebuild_with_balanced name s Hq) as [H1 [H2 [H3 H4]]].
  fold r in H1, H2, H3, H4.
  repeat split; try assumption.
  unfold OceanSystem.setQualityPreset. rewrite Hname, String.eqb_refl. reflexivity.
Qed.

Lemma OceanSystem_rebuild_unknown_name_uses_balanced_witness :
  let r := OceanSystem.rebuild "ultra"
             (OceanSystem.initialState "cinematic" OceanSystem.DEFAULT_PARAMS) in
  snd r = JS.Normal tt
  /\ OceanSystem.qualityPreset (fst r) = "ultra"%string
  /\ OceanSystem.quality (fst r) = OceanSystem.balanced
  /\ (exists rf f, OceanSystem.fft (fst r) = Some (rf, f)
                   /\ OceanFFT.resolution f = 256%Z
                   /\ OceanFFT.size f = 980%Q)
  /\ (exists rg g, OceanSystem.lodGrid (fst r) = Some (rg, g)
                   /\ OceanLODGrid.levels g = OceanSystem.levelSizes OceanSystem.balanced
                   /\ OceanLODGrid.baseCellSize g = (12 # 10)%Q
                   /\ OceanLODGrid.ringOverlap g = (5 # 10)%Q
                   /\ List.length (OceanLODGrid.meshes g) = 25%nat)
  /\ OceanSystem.setQualityPreset "ultra" (fst r) = (fst r, JS.Normal tt).
Proof.
  apply (OceanSystem_rebuild_unknown_name_uses_balanced "ultra"
           (OceanSystem.initialState "cinematic" OceanSystem.DEFAULT_PARAMS)).
  reflexivity.
Defined.

(** X5.  The preset table, as the repository's unit test reads it: every preset
    has a power-of-two FFT resolution that [ensurePowerOfTwo] returns
    unchanged, and at least two level sizes, strictly increasing. *)
Theorem presets_are_well_formed :
  forall q, In q [OceanSystem.performance; OceanSystem.balanced; OceanSystem.cinematic] ->
    exists (res : Z) (ls : list Q),
      OceanSystem.fftResolution q = Some (inject_Z res)
      /\ power_of_two res
      /\ OceanFFT.ensurePowerOfTwo (inject_Z res) = JS.Normal res
      /\ OceanSystem.levelSizes q = Some ls
      /\ levelsTooShort (Some ls) = false
      /\ strictlyIncreasing ls.
Proof.
  intros q [<- | [<- | [<- | []]]].
  - exists 128%Z. eexists. split; [reflexivity | ].
    split; [exists 7%Z; split; [lia | reflexivity] | ].
    repeat split; reflexivity.
  - exists 256%Z. eexists. split; [reflexivity | ].
    split; [exists 8%Z; split; [lia | reflexivity] | ].
    repeat split; reflexivity.
  - exists 512%Z. eexists. split; [reflexivity | ].
    split; [exists 9%Z; split; [lia | reflexivity] | ].
    repeat split; reflexivity.
Qed.

Lemma presets_are_well_formed_witness :
  exists (res : Z) (ls : list Q),
    OceanSystem.fftResolution OceanSystem.cinematic = Some (inject_Z res)
    /\ power_of_two res
    /\ OceanFFT.ensurePowerOfTwo (inject_Z res) = JS.Normal res
    /\ OceanSystem.levelSizes OceanSystem.cinematic = Some ls
    /\ levelsTooShort (Some ls) = false
    /\ strictlyIncreasing ls.
Proof.
  apply (presets_are_well_formed OceanSystem.cinematic).
  cbn. tauto.
Defined.

(** ** Reflection in a plane *)

Lemma dot_self_nonneg (a : Three.Vector3) : (0 <= Three.dot a a)%R.
Proof. unfold Three.dot. nra. Qed.

(** [normalize] yields a unit vector unless the vector has length 0. *)
Lemma normalize_unit (a : Three.Vector3) :
  Three.length a <> 0%R ->
  (Three.dot (Three.normalize a) (Three.normalize a) = 1)%R.
Proof.
  intros Hl. unfold Three.normalize.
  destruct (Req_dec_T (Three.length a) 0) as [E | _]; [contradiction | ].
  assert (Hsq : (Three.length a * Three.length a = Three.dot a a)%R)
    by (unfold Three.length; apply sqrt_sqrt, dot_self_nonneg).
  unfold Three.multiplyScalar, Three.dot at 1. cbn [Three.x3 Three.y3 Three.z3].
  unfold Three.dot in Hsq.
  set (l := Three.length a) in *.
  replace (Three.x3 a * (1 / l) * (Three.x3 a * (1 / l))
           + Three.y3 a * (1 / l) * (Three.y3 a * (1 / l))
           + Three.z3 a * (1 / l) * (Three.z3 a * (1 / l)))%R
    with ((Three.x3 a * Three.x3 a + Three.y3 a * Three.y3 a
           + Three.z3 a * Three.z3 a) / (l * l))%R by (field; exact Hl).
  rewrite <- Hsq. field. exact Hl.
Qed.

(** [m.sub(x).reflect(n).negate().add(m)], the idiom [update] uses twice,
    is the mirror image of [x]. *)
Lemma reflect_about_point (m n x : Three.Vector3) :
  Three.add (Three.negate (Three.reflect (Three.subVectors m x) n)) m
  = mirrorImage m n x.
Proof.
  unfold mirrorImage, Three.add, Three.negate, Three.reflect, Three.subVectors,
    Three.multiplyScalar, Three.dot.
  cbn [Three.x3 Three.y3 Three.z3]. f_equal; ring.
Qed.

Lemma mirrorImage_distance (m n x : Three.Vector3) :
  (Three.dot n n = 1)%R ->
  (Three.dot (Three.subVectors (mirrorImage m n x) m) n
   = - Three.dot (Three.subVectors x m) n)%R.
Proof.
  unfold mirrorImage, Three.subVectors, Three.multiplyScalar, Three.dot.
  cbn [Three.x3 Three.y3 Three.z3]. intros Hn.
  set (d := ((Three.x3 x - Three.x3 m) * Three.x3 n
             + (Three.y3 x - Three.y3 m) * Three.y3 n
             + (Three.z3 x - Three.z3 m) * Three.z3 n)%R).
  replace ((Three.x3 x - Three.x3 n * (2 * d) - Three.x3 m) * Three.x3 n
           + (Three.y3 x - Three.y3 n * (2 * d) - Three.y3 m) * Three.y3 n
           + (Three.z3 x - Three.z3 n * (2 * d) - Three.z3 m) * Three.z3 n)%R
    with (d - 2 * d * (Three.x3 n * Three.x3 n + Three.y3 n * Three.y3 n
                       + Three.z3 n * Three.z3 n))%R by (unfold d; ring).
  rewrite Hn. ring.
Qed.

Lemma mirrorImage_isometry (m n x : Three.Vector3) :
  (Three.dot n n = 1)%R ->
  (Three.dot (Three.subVectors (mirrorImage m n x) m)
             (Three.subVectors (mirrorImage m n x) m)
   = Three.dot (Three.subVectors x m) (Three.subVectors x m))%R.
Proof.
  unfold mirrorImage, Three.subVectors, Three.multiplyScalar, Three.dot.
  cbn [Three.x3 Three.y3 Three.z3]. intros Hn.
  set (d := ((Three.x3 x - Three.x3 m) * Three.x3 n
             + (Three.y3 x - Three.y3 m) * Three.y3 n
             + (Three.z3 x - Three.z3 m) * Three.z3 n)%R).
  set (nn := (Three.x3 n * Three.x3 n + Three.y3 n * Three.y3 n
              + Three.z3 n * Three.z3 n)%R) in Hn.
  transitivity
    (((Three.x3 x - Three.x3 m) * (Three.x3 x - Three.x3 m)
      + (Three.y3 x - Three.y3 m) * (Three.y3 x - Three.y3 m)
      + (Three.z3 x - Three.z3 m) * (Three.z3 x - Three.z3 m))
     + 4 * d * d * (nn - 1))%R.
  - unfold d, nn. ring.
  - rewrite Hn. ring.
Qed.

Lemma mirrorImage_midpoint (m n x : Three.Vector3) :
  (Three.dot n n = 1)%R ->
  (Three.dot
     (Three.subVectors
        (Three.multiplyScalar (Three.add x (mirrorImage m n x)) (1 / 2)) m) n = 0)%R.
Proof.
  unfold mirrorImage, Three.subVectors, Three.multiplyScalar, Three.add, Three.dot.
  cbn [Three.x3 Three.y3 Three.z3]. intros Hn.
  set (d := ((Three.x3 x - Three.x3 m) * Three.x3 n
             + (Three.y3 x - Three.y3 m) * Three.y3 n
             + (Three.z3 x - Three.z3 m) * Three.z3 n)%R).
  set (nn := (Three.x3 n * Three.x3 n + Three.y3 n * Three.y3 n
              + Three.z3 n * Three.z3 n)%R) in Hn.
  transitivity (d * (1 - nn))%R.
  - unfold d, nn. field.
  - rewrite Hn. ring.
Qed.

(** [v.reflect(n)] keeps the length of [v] when [n] is a unit vector. *)
Lemma reflect_isometry (v n : Three.Vector3) :
  (Three.dot n n = 1)%R ->
  (Three.dot (Three.reflect v n) (Three.reflect v n) = Three.dot v v)%R.
Proof.
  unfold Three.reflect, Three.subVectors, Three.multiplyScalar, Three.dot.
  cbn [Three.x3 Three.y3 Three.z3]. intros Hn.
  set (d := (Three.x3 v * Three.x3 n + Three.y3 v * Three.y3 n
             + Three.z3 v * Three.z3 n)%R).
  set (nn := (Three.x3 n * Three.x3 n + Three.y3 n * Three.y3 n
              + Three.z3 n * Three.z3 n)%R) in Hn.
  transitivity
    ((Three.x3 v * Three.x3 v + Three.y3 v * Three.y3 v + Three.z3 v * Three.z3 v)
     + 4 * d * d * (nn - 1))%R.
  - unfold d, nn. ring.
  - rewrite Hn. ring.
Qed.

(** ** PlanarReflectionPass: the side test *)

Section ReflectionFacts.
Context {lib : Three.Library}.

(** X6 (mirror image).  With the ocean visible, the camera not behind the
    plane and a rotation that does not collapse the up axis, [update] leaves
    a unit normal [n] and places the mirror camera at the mirror image of
    the viewer's camera in the plane through the ocean's position [m]:
    [c' = c - 2 ((c - m) . n) n].  So the mirror camera is as far from [m]
    and from the plane as the viewer, on or below the plane, and the point
    half-way between the two cameras lies in the plane.  The point the
    mirror camera looks at is the mirror image of the point one unit ahead
    of the viewer, and its up vector has the length of the viewer's. *)
Theorem PlanarReflectionPass_update_mirrors_the_camera
  (w : PlanarReflectionPass.World) (root : PlanarReflectionPass.Object3D) :
  PlanarReflectionPass.oceanRoot w = Some root ->
  PlanarReflectionPass.visible root = true ->
  let p1 := PlanarReflectionPass.beforeTest
              (PlanarReflectionPass.pass w) root (PlanarReflectionPass.camera w) in
  ~ (0 < Three.dot (PlanarReflectionPass.view p1) (PlanarReflectionPass.normal p1))%R ->
  Three.length
    (Three.applyMatrix4 {| Three.x3 := 0; Three.y3 := 1; Three.z3 := 0 |}
       (Three.extractRotation (PlanarReflectionPass.matrixWorld root))) <> 0%R ->
  let p' := PlanarReflectionPass.pass (PlanarReflectionPass.update w) in
  let n := PlanarReflectionPass.normal p' in
  let m := Three.setFromMatrixPosition (PlanarReflectionPass.matrixWorld root) in
  let c := Three.setFromMatrixPosition
             (PlanarReflectionPass.cam_matrixWorld (PlanarReflectionPass.camera w)) in
  let c' := PlanarReflectionPass.mc_position (PlanarReflectionPass.mirrorCamera p') in
  let ahead := PlanarReflectionPass.lookAtPosition p' in
  let up := Three.applyMatrix4 {| Three.x3 := 0; Three.y3 := 1; Three.z3 := 0 |}
              (Three.extractRotation
                 (PlanarReflectionPass.cam_matrixWorld (PlanarReflectionPass.camera w))) in
  (Three.dot n n = 1
   /\ c' = mirrorImage m n c
   /\ Three.dot (Three.subVectors c' m) n = - Three.dot (Three.subVectors c m) n
   /\ Three.dot (Three.subVectors c' m) n <= 0
   /\ Three.dot (Three.subVectors c' m) (Three.subVectors c' m)
      = Three.dot (Three.subVectors c m) (Three.subVectors c m)
   /\ Three.dot
        (Three.subVectors
           (Three.multiplyScalar (Three.add c c') (1 / 2)) m) n = 0
   /\ PlanarReflectionPass.target p' = mirrorImage m n ahead
   /\ Three.dot (PlanarReflectionPass.mc_up (PlanarReflectionPass.mirrorCamera p'))
                (PlanarReflectionPass.mc_up (PlanarReflectionPass.mirrorCamera p'))
      = Three.dot up up)%R.
Proof.
  intros Hroot Hvis p1 Hfront Hup p' n m c c' ahead up.
  assert (Hp' : p' = PlanarReflectionPass.mirrorFrame p1 (PlanarReflectionPass.camera w)).
  { unfold p', PlanarReflectionPass.update. rewrite Hroot, Hvis. cbn [negb].
    fold p1. destruct (Rlt_dec 0 _) as [Hlt | _]; [contradiction | reflexivity]. }
  assert (Hn : n = PlanarReflectionPass.normal p1) by (unfold n; rewrite Hp'; reflexivity).
  assert (Hunit : (Three.dot n n = 1)%R).
  { rewrite Hn. unfold p1, PlanarReflectionPass.beforeTest.
    cbn [PlanarReflectionPass.normal]. apply normalize_unit. exact Hup. }
  assert (Hc' : c' = mirrorImage m n c).
  { unfold c'. rewrite Hn, Hp'. apply reflect_about_point. }
  assert (Hdot : (Three.dot (PlanarReflectionPass.view p1) n
                  = - Three.dot (Three.subVectors c m) n)%R).
  { unfold p1, PlanarReflectionPass.beforeTest. cbn [PlanarReflectionPass.view].
    fold m c. unfold Three.dot, Three.subVectors. cbn. ring. }
  rewrite <- Hn in Hfront.
  split; [exact Hunit | ]. split; [exact Hc' | ]. rewrite Hc'.
  split; [apply mirrorImage_distance; exact Hunit | ].
  split; [rewrite (mirrorImage_distance m n c Hunit); lra | ].
  split; [apply mirrorImage_isometry; exact Hunit | ].
  split; [apply mirrorImage_midpoint; exact Hunit | ].
  split.
  - unfold ahead. rewrite Hn, Hp'. apply reflect_about_point.
  - rewrite Hp'. cbn [PlanarReflectionPass.mirrorFrame PlanarReflectionPass.mirrorCamera
                      PlanarReflectionPass.mc_up].
    fold up. rewrite <- Hn. apply reflect_isometry. exact Hunit.
Qed.

(** C4.  When the view vector (ocean position minus camera position) has a
    positive dot product with the plane normal, [update] returns before it
    touches the renderer: nothing is submitted, the bound render target and
    every other renderer field are as before, and the reflection target,
    the texture matrix, the mirror camera and the ocean uniforms are
    unchanged. *)
Theorem PlanarReflectionPass_update_skips_behind_plane
  (w : PlanarReflectionPass.World) (root : PlanarReflectionPass.Object3D) :
  PlanarReflectionPass.oceanRoot w = Some root ->
  let p1 := PlanarReflectionPass.beforeTest
              (PlanarReflectionPass.pass w) root (PlanarReflectionPass.camera w) in
  (0 < Three.dot (PlanarReflectionPass.view p1) (PlanarReflectionPass.normal p1))%R ->
  let w' := PlanarReflectionPass.update w in
  PlanarReflectionPass.renderer w' = PlanarReflectionPass.renderer w
  /\ PlanarReflectionPass.renderTarget (PlanarReflectionPass.pass w')
     = PlanarReflectionPass.renderTarget (PlanarReflectionPass.pass w)
  /\ PlanarReflectionPass.textureMatrix (PlanarReflectionPass.pass w')
     = PlanarReflectionPass.textureMatrix (PlanarReflectionPass.pass w)
  /\ PlanarReflectionPass.mirrorCamera (PlanarReflectionPass.pass w')
     = PlanarReflectionPass.mirrorCamera (PlanarReflectionPass.pass w)
  /\ PlanarReflectionPass.oceanUniforms w' = PlanarReflectionPass.oceanUniforms w
  /\ PlanarReflectionPass.oceanRoot w' = PlanarReflectionPass.oceanRoot w
  /\ PlanarReflectionPass.camera w' = PlanarReflectionPass.camera w.
Proof.
  intros Hroot p1 Hbehind w'.
  unfold w', PlanarReflectionPass.update. rewrite Hroot.
  destruct (PlanarReflectionPass.visible root); cbn [negb].
  - fold p1. destruct (Rlt_dec 0 _) as [_ | Hn]; [ | contradiction].
    repeat split; reflexivity.
  - rewrite Hroot. repeat split; reflexivity.
Qed.

End ReflectionFacts.

Lemma applyMatrix4_identity (v : Three.Vector3) :
  Three.applyMatrix4 v Three.identity = v.
Proof.
  destruct v as [a b c]. unfold Three.applyMatrix4. cbn. f_equal; field.
Qed.

Lemma normalize_unit_y :
  Three.normalize {| Three.x3 := 0; Three.y3 := 1; Three.z3 := 0 |}
  = {| Three.x3 := 0; Three.y3 := 1; Three.z3 := 0 |}.
Proof.
  unfold Three.normalize, Three.length, Three.dot, Three.multiplyScalar. cbn.
  replace (0 * 0 + 1 * 1 + 0 * 0)%R with 1%R by ring.
  rewrite sqrt_1.
  destruct (Req_dec_T 1 0) as [E | _]; [lra | ].
  f_equal; field.
Qed.

Lemma camera_below_is_behind :
  (0 < Three.dot
         (PlanarReflectionPass.view
            (@PlanarReflectionPass.beforeTest unrotatedLibrary fresh_pass
               ocean_at_origin camera_below))
         (PlanarReflectionPass.normal
            (@PlanarReflectionPass.beforeTest unrotatedLibrary fresh_pass
               ocean_at_origin camera_below)))%R.
Proof.
  unfold PlanarReflectionPass.beforeTest.
  cbn [PlanarReflectionPass.view PlanarReflectionPass.normal
       Three.extractRotation unrotatedLibrary].
  rewrite applyMatrix4_identity, normalize_unit_y.
  unfold Three.dot. cbn. lra.
Qed.

Lemma camera_above_is_in_front :
  ~ (0 < Three.dot
           (PlanarReflectionPass.view
              (@PlanarReflectionPass.beforeTest unrotatedLibrary fresh_pass
                 ocean_at_origin camera_above))
           (PlanarReflectionPass.normal
              (@PlanarReflectionPass.beforeTest unrotatedLibrary fresh_pass
                 ocean_at_origin camera_above)))%R.
Proof.
  unfold PlanarReflectionPass.beforeTest.
  cbn [PlanarReflectionPass.view PlanarReflectionPass.normal
       Three.extractRotation unrotatedLibrary].
  rewrite applyMatrix4_identity, normalize_unit_y.
  unfold Three.dot. cbn. lra.
Qed.

Lemma unit_y_length :
  Three.length {| Three.x3 := 0; Three.y3 := 1; Three.z3 := 0 |} = 1%R.
Proof.
  unfold Three.length, Three.dot. cbn.
  replace (0 * 0 + 1 * 1 + 0 * 0)%R with 1%R by ring. apply sqrt_1.
Qed.

Lemma PlanarReflectionPass_update_mirrors_the_camera_witness :
  let p' := PlanarReflectionPass.pass
              (@PlanarReflectionPass.update unrotatedLibrary world_camera_above) in
  let n := PlanarReflectionPass.normal p' in
  let m := Three.setFromMatrixPosition (PlanarReflectionPass.matrixWorld ocean_at_origin) in
  let c := Three.setFromMatrixPosition
             (PlanarReflectionPass.cam_matrixWorld camera_above) in
  let c' := PlanarReflectionPass.mc_position (PlanarReflectionPass.mirrorCamera p') in
  let ahead := PlanarReflectionPass.lookAtPosition p' in
  let up := Three.applyMatrix4 {| Three.x3 := 0; Three.y3 := 1; Three.z3 := 0 |}
              Three.identity in
  (Three.dot n n = 1
   /\ c' = mirrorImage m n c
   /\ Three.dot (Three.subVectors c' m) n = - Three.dot (Three.subVectors c m) n
   /\ Three.dot (Three.subVectors c' m) n <= 0
   /\ Three.dot (Three.subVectors c' m) (Three.subVectors c' m)
      = Three.dot (Three.subVectors c m) (Three.subVectors c m)
   /\ Three.dot
        (Three.subVectors
           (Three.multiplyScalar (Three.add c c') (1 / 2)) m) n = 0
   /\ PlanarReflectionPass.target p' = mirrorImage m n ahead
   /\ Three.dot (PlanarReflectionPass.mc_up (PlanarReflectionPass.mirrorCamera p'))
                (PlanarReflectionPass.mc_up (PlanarReflectionPass.mirrorCamera p'))
      = Three.dot up up)%R.
Proof.
  apply (@PlanarReflectionPass_update_mirrors_the_camera unrotatedLibrary
           world_camera_above ocean_at_origin).
  - reflexivity.
  - reflexivity.
  - exact camera_above_is_in_front.
  - cbn [Three.extractRotation unrotatedLibrary].
    rewrite applyMatrix4_identity, unit_y_length. lra.
Defined.

Lemma PlanarReflectionPass_update_skips_behind_plane_witness :
  let w' := @PlanarReflectionPass.update unrotatedLibrary world_camera_below in
  PlanarReflectionPass.renderer w' = PlanarReflectionPass.renderer world_camera_below
  /\ PlanarReflectionPass.renderTarget (PlanarReflectionPass.pass w')
     = PlanarReflectionPass.renderTarget (PlanarReflectionPass.pass world_camera_below)
  /\ PlanarReflectionPass.textureMatrix (PlanarReflectionPass.pass w')
     = PlanarReflectionPass.textureMatrix (PlanarReflectionPass.pass world_camera_below)
  /\ PlanarReflectionPass.mirrorCamera (PlanarReflectionPass.pass w')
     = PlanarReflectionPass.mirrorCamera (PlanarReflectionPass.pass world_camera_below)
  /\ PlanarReflectionPass.oceanUniforms w'
     = PlanarReflectionPass.oceanUniforms world_camera_below
  /\ PlanarReflectionPass.oceanRoot w' = PlanarReflectionPass.oceanRoot world_camera_below
  /\ PlanarReflectionPass.camera w' = PlanarReflectionPass.camera world_camera_below.
Proof.
  apply (@PlanarReflectionPass_update_skips_behind_plane unrotatedLibrary
           world_camera_below ocean_at_origin).
  - reflexivity.
  - exact camera_below_is_behind.
Defined.

(** ** OceanFFT: order of the passes and the spectrum flag *)



(** ** OceanFFT: the sub-transform sizes *)





(** ** OceanFFT: the wind *)

Lemma update_keeps_wind (dt : Q) (o : OceanFFT.t) :
  let o' := fst (OceanFFT.update dt o) in
  OceanFFT.windSpeed o' = OceanFFT.windSpeed o
  /\ OceanFFT.windDirection o' = OceanFFT.windDirection o
  /\ OceanFFT.windVector o' = OceanFFT.windVector o
  /\ OceanFFT.choppiness o' = OceanFFT.choppiness o.
Proof.
  cbv zeta. rewrite update_unfold. cbn.
  destruct (OceanFFT.needsSpectrumInit o); repeat split; reflexivity.
Qed.

(** The wind fields agree: a speed of at least 0.01 and the vector of that
    length in the stored direction. *)
Lemma setWind_agrees (speed : Q) (directionRadians : R) (o : OceanFFT.t) :
  windAgrees (OceanFFT.setWind speed directionRadians o).
Proof.
  unfold windAgrees. cbn. split; [ | reflexivity].
  unfold JS.max. apply Q.le_max_l.
Qed.

Lemma fftCall_agrees (c : FFTCall) (o : OceanFFT.t) :
  windAgrees o ->
  windAgrees (fftCall c o) /\ OceanFFT.resolution (fftCall c o) = OceanFFT.resolution o.
Proof.
  intros Ho. destruct c as [speed dir | sz | ch | dt]; cbn [fftCall].
  - split; [apply setWind_agrees | reflexivity].
  - split; [exact Ho | reflexivity].
  - split; [exact Ho | reflexivity].
  - destruct (update_keeps_wind dt o) as [H1 [H2 [H3 _]]].
    split; [ | apply update_keeps_resolution_and_size].
    unfold windAgrees. rewrite H1, H2, H3. exact Ho.
Qed.

Lemma windAgrees_length (o : OceanFFT.t) :
  windAgrees o ->
  sqrt (fst (OceanFFT.windVector o) * fst (OceanFFT.windVector o)
        + snd (OceanFFT.windVector o) * snd (OceanFFT.windVector o))%R
  = Q2R (OceanFFT.windSpeed o)
  /\ (0 < Q2R (OceanFFT.windSpeed o))%R.
Proof.
  intros [Hlo Hv]. rewrite Hv. cbn [fst snd].
  set (w := Q2R (OceanFFT.windSpeed o)).
  assert (Hw : (0 < w)%R).
  { unfold w. replace 0%R with (Q2R 0) by (unfold Q2R; cbn; lra).
    apply Qlt_Rlt. eapply Qlt_le_trans; [ | exact Hlo]. reflexivity. }
  split; [ | exact Hw].
  set (d := OceanFFT.windDirection o).
  replace (cos d * w * (cos d * w) + sin d * w * (sin d * w))%R
    with ((Rsqr (sin d) + Rsqr (cos d)) * (w * w))%R by (unfold Rsqr; ring).
  rewrite sin2_cos2, Rmult_1_l. apply sqrt_square. lra.
Qed.

(** X9 (wind vector).  From construction on and through any sequence of
    [setWind], [setSize], [setChoppiness] and [update] calls, the stored wind
    speed is at least 0.01 and the wind vector handed to the
    initial-spectrum shader is the vector of exactly that length in the
    stored direction; so it is never the zero vector, whatever speed the
    caller asks for.  The resolution stays the one constructed with. *)
Theorem OceanFFT_wind_vector_never_zero
  (options : OceanFFT.Options) (o : OceanFFT.t) (cs : list FFTCall) :
  OceanFFT.constructor options = JS.Normal o ->
  let o' := fftCalls cs o in
  let v := OceanFFT.windVector o' in
  ((1 # 100) <= OceanFFT.windSpeed o')%Q
  /\ v = ((cos (OceanFFT.windDirection o') * Q2R (OceanFFT.windSpeed o'))%R,
          (sin (OceanFFT.windDirection o') * Q2R (OceanFFT.windSpeed o'))%R)
  /\ sqrt (fst v * fst v + snd v * snd v)%R = Q2R (OceanFFT.windSpeed o')
  /\ v <> (0%R, 0%R)
  /\ OceanFFT.resolution o' = OceanFFT.resolution o.
Proof.
  intros Hc o' v.
  assert (Ho : windAgrees o).
  { unfold OceanFFT.constructor in Hc.
    destruct (OceanFFT.ensurePowerOfTwo _) as [res | e]; [ | discriminate Hc].
    cbv zeta in Hc.
    destruct (OceanFFT.generateSeedPhaseTexture _); [ | discriminate Hc].
    injection Hc as <-. apply setWind_agrees. }
  assert (Hinv : windAgrees o' /\ OceanFFT.resolution o' = OceanFFT.resolution o).
  { unfold o'. clear o' v Hc. revert o Ho.
    induction cs as [ | c cs IH]; intros o Ho; [split; [exact Ho | reflexivity] | ].
    cbn [fftCalls]. destruct (fftCall_agrees c o Ho) as [Hc Hres].
    destruct (IH _ Hc) as [H1 H2]. split; [exact H1 | ]. now rewrite H2. }
  destruct Hinv as [Hagree Hres].
  destruct (windAgrees_length o' Hagree) as [Hlen Hpos].
  destruct Hagree as [Hlo Hv]. fold v in Hv, Hlen.
  split; [exact Hlo | ]. split; [exact Hv | ]. split; [exact Hlen | ].
  split; [ | exact Hres].
  intros Hz. rewrite Hz in Hlen. cbn [fst snd] in Hlen.
  replace (0 * 0 + 0 * 0)%R with 0%R in Hlen by ring.
  rewrite sqrt_0 in Hlen. lra.
Qed.

Lemma OceanFFT_wind_vector_never_zero_witness :
  let o' := fftCalls [CallSetWind (-3) PI; CallFFTUpdate (1 # 60); CallSetSize 10] default_fft in
  let v := OceanFFT.windVector o' in
  ((1 # 100) <= OceanFFT.windSpeed o')%Q
  /\ v = ((cos (OceanFFT.windDirection o') * Q2R (OceanFFT.windSpeed o'))%R,
          (sin (OceanFFT.windDirection o') * Q2R (OceanFFT.windSpeed o'))%R)
  /\ sqrt (fst v * fst v + snd v * snd v)%R = Q2R (OceanFFT.windSpeed o')
  /\ v <> (0%R, 0%R)
  /\ OceanFFT.resolution o' = OceanFFT.resolution default_fft.
Proof.
  apply (OceanFFT_wind_vector_never_zero
           {| OceanFFT.opt_resolution := None; OceanFFT.opt_size := None;
              OceanFFT.opt_choppiness := None; OceanFFT.opt_windSpeed := None;
              OceanFFT.opt_windDirection := None; OceanFFT.opt_useHalfFloat := None |}
           default_fft).
  reflexivity.
Defined.

(** ** OceanLODGrid: what the patches cover *)

Lemma ring_meshes_eq (i : nat) (inner outer : Q) (g : OceanLODGrid.t) :
  exists north south west east,
    OceanLODGrid.meshes (OceanLODGrid.ring i inner outer g)
    = OceanLODGrid.meshes g ++ [north; south; west; east]
    /\ (forall x z,
          (0 <= OceanLODGrid.ringOverlap g)%Q ->
          (0 <= OceanLODGrid.baseCellSize g)%Q ->
          (inner <= outer)%Q ->
          inSquare outer x z ->
          inSquare inner x z
          \/ covers north x z \/ covers south x z \/ covers west x z \/ covers east x z).
Proof.
  unfold OceanLODGrid.ring.
  set (ringWidth := ((outer - inner) * (1 # 2))%Q).
  set (cellSize := (OceanLODGrid.baseCellSize g * inject_Z (2 ^ Z.of_nat i))%Q).
  set (overlap := JS.min (ringWidth * (1 # 4)) (OceanLODGrid.ringOverlap g * cellSize)).
  do 4 eexists. split.
  - cbn [OceanLODGrid.meshes OceanLODGrid.addMesh OceanLODGrid.material].
    rewrite <- !app_assoc. reflexivity.
  - intros x z Hro Hbcs Hio [Hx1 [Hx2 [Hz1 Hz2]]].
    assert (Hcell : (0 <= cellSize)%Q).
    { unfold cellSize. apply Qmult_le_0_compat; [exact Hbcs | ].
      change 0%Q with (inject_Z 0). rewrite <- Zle_Qle.
      apply Z.pow_nonneg. lia. }
    assert (Hrw : (0 <= ringWidth)%Q) by (unfold ringWidth; lra).
    assert (Hov : (0 <= overlap)%Q).
    { unfold overlap, JS.min. apply Q.min_glb; [lra | ].
      apply Qmult_le_0_compat; assumption. }
    clearbody overlap. unfold ringWidth in *. clear Hcell. clearbody cellSize.
    unfold covers, OceanLODGrid.createPatch, inSquare; cbn.
    destruct (Qlt_le_dec z (- (inner * (1 # 2)))) as [Hn | Hn].
    { right; left. repeat split; lra. }
    destruct (Qlt_le_dec (inner * (1 # 2)) z) as [Hs | Hs].
    { right; right; left. repeat split; lra. }
    destruct (Qlt_le_dec x (- (inner * (1 # 2)))) as [Hw | Hw].
    { right; right; right; left. repeat split; lra. }
    destruct (Qlt_le_dec (inner * (1 # 2)) x) as [He | He].
    { right; right; right; right. repeat split; lra. }
    left. repeat split; lra.
Qed.

Lemma rings_cover (rest : list Q) :
  forall (i : nat) (inner : Q) (g : OceanLODGrid.t),
    nondecreasing (inner :: rest) ->
    (0 <= OceanLODGrid.ringOverlap g)%Q ->
    (0 <= OceanLODGrid.baseCellSize g)%Q ->
    (forall x z, inSquare inner x z ->
                 exists m, In m (OceanLODGrid.meshes g) /\ covers m x z) ->
    forall x z, inSquare (last rest inner) x z ->
                exists m, In m (OceanLODGrid.meshes (OceanLODGrid.rings i inner rest g))
                          /\ covers m x z.
Proof.
  induction rest as [ | outer rest IH]; intros i inner g Hnd Hro Hbcs Hcov x z Hin.
  - cbn in *. now apply Hcov.
  - cbn [OceanLODGrid.rings].
    destruct Hnd as [Hio Hnd].
    replace (last (outer :: rest) inner) with (last rest outer) in Hin
      by (clear; revert outer; induction rest as [ | b rest IHr]; intros outer;
          [reflexivity | cbn [last]; destruct rest; [reflexivity | apply IHr]]).
    apply IH; try assumption.
    clear x z Hin. intros x z Hin.
    destruct (ring_meshes_eq i inner outer g) as [n [s [w [e [Hm Hc]]]]].
    rewrite Hm.
    destruct (Hc x z Hro Hbcs Hio Hin) as [H | [H | [H | [H | H]]]].
    + destruct (Hcov x z H) as [m [Hmem Hcm]].
      exists m. split; [apply in_or_app; left; exact Hmem | exact Hcm].
    + exists n. split; [apply in_or_app; right; cbn; tauto | exact H].
    + exists s. split; [apply in_or_app; right; cbn; tauto | exact H].
    + exists w. split; [apply in_or_app; right; cbn; tauto | exact H].
    + exists e. split; [apply in_or_app; right; cbn; tauto | exact H].
Qed.

(** X10 (no gaps).  When the level sizes never decrease and the base cell
    size and the ring overlap are not negative, the patches of a built grid
    leave no gap: every point of the square whose side is the last level
    size lies in the footprint of at least one patch. *)
Theorem OceanLODGrid_patches_cover_square
  (a : OceanLODGrid.Args) (ls : list Q) (g : OceanLODGrid.t) :
  OceanLODGrid.arg_levels a = Some ls ->
  nondecreasing ls ->
  (0 <= OceanLODGrid.baseCellSize (OceanLODGrid.init a))%Q ->
  (0 <= OceanLODGrid.ringOverlap (OceanLODGrid.init a))%Q ->
  OceanLODGrid.constructor a = JS.Normal g ->
  forall x z, inSquare (last ls 0%Q) x z ->
              exists m, In m (OceanLODGrid.meshes g) /\ covers m x z.
Proof.
  intros Hls Hnd Hbcs Hro Hc x z Hin.
  unfold OceanLODGrid.constructor, OceanLODGrid.build in Hc.
  change (OceanLODGrid.levels (OceanLODGrid.init a)) with (OceanLODGrid.arg_levels a) in Hc.
  rewrite Hls in Hc.
  destruct (List.length ls <? 2)%nat; [discriminate Hc | ].
  destruct ls as [ | centerSize rest]; [discriminate Hc | ].
  injection Hc as <-.
  replace (last (centerSize :: rest) 0%Q) with (last rest centerSize) in Hin
    by (clear; revert centerSize; induction rest as [ | b rest IHr]; intros c;
        [reflexivity | cbn [last]; destruct rest; [reflexivity | apply IHr]]).
  apply rings_cover with (inner := centerSize); try assumption.
  clear x z Hin. intros x z [Hx1 [Hx2 [Hz1 Hz2]]].
  eexists. split; [cbn; left; reflexivity | ].
  unfold covers, OceanLODGrid.createPatch; cbn. repeat split; lra.
Qed.

Lemma OceanLODGrid_patches_cover_square_witness :
  exists m,
    In m (OceanLODGrid.meshes (fst (OceanLODGrid.build (OceanLODGrid.init args_two_levels))))
    /\ covers m 200 (-100).
Proof.
  apply (OceanLODGrid_patches_cover_square args_two_levels [256; 512]%Q
           (fst (OceanLODGrid.build (OceanLODGrid.init args_two_levels)))).
  - reflexivity.
  - cbn. split; [discriminate | exact I].
  - discriminate.
  - discriminate.
  - reflexivity.
  - unfold inSquare. cbn. repeat split; discriminate.
Defined.

(** ** OceanLODGrid: what every patch has *)







(** ** OceanSystem: resources across calls *)

Lemma teardown_releases_held (s : OceanSystem.t) :
  heldRefs (OceanSystem.teardown s) = []
  /\ OceanSystem.disposed (OceanSystem.teardown s) = OceanSystem.disposed s ++ heldRefs s
  /\ OceanSystem.nextRef (OceanSystem.teardown s) = OceanSystem.nextRef s
  /\ OceanSystem.fft (OceanSystem.teardown s) = None
  /\ OceanSystem.lodGrid (OceanSystem.teardown s) = None
  /\ OceanSystem.material (OceanSystem.teardown s) = None
  /\ OceanSystem.root_children (OceanSystem.teardown s)
     = match OceanSystem.lodGrid s with
       | Some (r, _) =>
           List.filter (fun c => negb (Nat.eqb c r)) (OceanSystem.root_children s)
       | None => OceanSystem.root_children s
       end.
Proof.
  unfold OceanSystem.teardown, heldRefs.
  destruct (OceanSystem.lodGrid s) as [[rg g] | ] eqn:Hg;
    destruct (OceanSystem.material s) as [m | ] eqn:Hm;
    destruct (OceanSystem.fft s) as [[rf f] | ] eqn:Hf;
    cbn; repeat (progress (rewrite ?Hg, ?Hm, ?Hf; cbn));
    rewrite <- ?app_assoc, ?app_nil_r; repeat split; reflexivity.
Qed.

Lemma applyOceanParams_resources (s : OceanSystem.t) :
  let s' := OceanSystem.applyOceanParams s in
  heldRefs s' = heldRefs s
  /\ OceanSystem.disposed s' = OceanSystem.disposed s
  /\ OceanSystem.nextRef s' = OceanSystem.nextRef s
  /\ OceanSystem.root_children s' = OceanSystem.root_children s
  /\ OceanSystem.material s' = OceanSystem.material s
  /\ OceanSystem.params s' = OceanSystem.params s
  /\ OceanSystem.qualityPreset s' = OceanSystem.qualityPreset s
  /\ OceanSystem.quality s' = OceanSystem.quality s
  /\ match OceanSystem.lodGrid s', OceanSystem.lodGrid s with
     | Some (r', g'), Some (r, g) =>
         r' = r /\ OceanLODGrid.material g' = OceanLODGrid.material g
     | None, None => True
     | _, _ => False
     end.
Proof.
  unfold OceanSystem.applyOceanParams, heldRefs.
  destruct (OceanSystem.fft s) as [[rf f] | ] eqn:Hf.
  - destruct (OceanSystem.uniforms s) as [u | ] eqn:Hu.
    + cbn. destruct (OceanSystem.lodGrid s) as [[rg g] | ] eqn:Hg; cbn;
        rewrite ?Hg; repeat split; reflexivity.
    + rewrite Hf. destruct (OceanSystem.lodGrid s) as [[rg g] | ];
        repeat split; reflexivity.
  - rewrite Hf. destruct (OceanSystem.lodGrid s) as [[rg g] | ];
      repeat split; reflexivity.
Qed.

Lemma constructor_material (a : OceanLODGrid.Args) (g : OceanLODGrid.t) :
  OceanLODGrid.constructor a = JS.Normal g ->
  OceanLODGrid.material g = OceanLODGrid.arg_material a.
Proof.
  unfold OceanLODGrid.constructor. intros H.
  pose proof (build_configuration (OceanLODGrid.init a)) as [[Hm _] _].
  destruct (OceanLODGrid.build (OceanLODGrid.init a)) as [g' [[] | e]];
    [ | discriminate H].
  injection H as <-. exact Hm.
Qed.

(** What a [rebuild] does to the resources, from any state. *)
Lemma rebuild_resources (name : string) (s : OceanSystem.t) :
  let s' := fst (OceanSystem.rebuild name s) in
  let r0 := OceanSystem.nextRef s in
  OceanSystem.disposed s' = OceanSystem.disposed s ++ heldRefs s
  /\ OceanSystem.root_children s'
     = match OceanSystem.lodGrid s with
       | Some (r, _) =>
           List.filter (fun c => negb (Nat.eqb c r)) (OceanSystem.root_children s)
       | None => OceanSystem.root_children s
       end
       ++ match OceanSystem.lodGrid s' with Some (r, _) => [r] | None => [] end
  /\ (heldRefs s' = [] /\ OceanSystem.nextRef s' = r0
      \/ heldRefs s' = [S r0; r0] /\ OceanSystem.nextRef s' = S (S r0)
      \/ heldRefs s' = [S (S r0); S r0; r0] /\ OceanSystem.nextRef s' = S (S (S r0)))
  /\ (forall rg g, OceanSystem.lodGrid s' = Some (rg, g) ->
                   OceanSystem.material s' = Some (OceanLODGrid.material g)).
Proof.
  intros s' r0. unfold s', OceanSystem.rebuild. clear s'.
  set (s0 := OceanSystem.teardown _).
  destruct (teardown_releases_held (OceanSystem.set_preset name (OceanSystem.qualityFor name) s))
    as [Hheld [Hdisp [Hnext [Hfft [Hgrid [Hmat Hroot]]]]]].
  fold s0 in Hheld, Hdisp, Hnext, Hfft, Hgrid, Hmat, Hroot.
  change (heldRefs (OceanSystem.set_preset name (OceanSystem.qualityFor name) s))
    with (heldRefs s) in Hdisp.
  cbn [OceanSystem.disposed OceanSystem.nextRef OceanSystem.lodGrid
       OceanSystem.root_children OceanSystem.set_preset] in Hdisp, Hnext, Hroot.
  fold r0 in Hnext. clearbody s0.
  destruct (OceanFFT.constructor _) as [f | e].
  - unfold OceanSystem.alloc. cbv beta iota zeta.
    destruct (OceanLODGrid.constructor _) as [g | e] eqn:Hctor.
    + cbn [fst].
      match goal with
      | |- context [OceanSystem.applyOceanParams ?x] =>
          pose proof (applyOceanParams_resources x) as Happly; set (s7 := x) in *
      end.
      cbv zeta in Happly.
      destruct Happly as [Ha1 [Ha2 [Ha3 [Ha4 [Ha5 [_ [_ [_ Ha6]]]]]]]].
      assert (Hg7 : OceanSystem.lodGrid s7
                    = Some (S (S (OceanSystem.nextRef s0)),
                            OceanLODGrid.setLodScale
                              (OceanSystem.lodScale (OceanSystem.params s0)) g))
        by reflexivity.
      rewrite Hg7 in Ha6.
      destruct (OceanSystem.lodGrid (OceanSystem.applyOceanParams s7))
        as [[rg' g'] | ] eqn:Hg'; [ | contradiction].
      destruct Ha6 as [-> Hmg].
      rewrite Ha2, Ha4, Ha3.
      split; [exact Hdisp | ]. split.
      { unfold s7. cbn [OceanSystem.root_children OceanSystem.set_root_children
                          OceanSystem.set_lodGrid OceanSystem.set_material
                          OceanSystem.set_fft].
        rewrite Hroot. reflexivity. }
      split.
      { right; right. rewrite Ha1. unfold heldRefs, s7. cbn. rewrite Hnext.
        split; reflexivity. }
      intros rg g0 [= <- <-]. rewrite Ha5, Hmg. unfold s7. cbn.
      rewrite (constructor_material _ _ Hctor). reflexivity.
    + cbn [fst OceanSystem.disposed OceanSystem.set_material OceanSystem.set_fft
           OceanSystem.root_children OceanSystem.lodGrid OceanSystem.nextRef].
      rewrite Hgrid, app_nil_r.
      split; [exact Hdisp | ]. split; [exact Hroot | ]. split.
      { right; left. unfold heldRefs. cbn. rewrite ?Hgrid, ?Hnext. split; reflexivity. }
      intros rg g0 H. discriminate H.
  - cbn [fst]. rewrite Hgrid, app_nil_r.
    split; [exact Hdisp | ]. split; [exact Hroot | ]. split.
    { left. split; assumption. }
    intros rg g0 H. discriminate H.
Qed.

Lemma sameResources_refl (s : OceanSystem.t) : sameResources s s.
Proof.
  unfold sameResources. repeat split.
  destruct (OceanSystem.lodGrid s) as [[r g] | ]; [split; reflexivity | exact I].
Qed.

Lemma sameResources_sound (s s' : OceanSystem.t) :
  sameResources s s' -> soundResources s -> soundResources s'.
Proof.
  intros [Hh [Hd [Hn [Hr [Hm Hg]]]]] [S1 [S2 [S3 S4]]].
  unfold soundResources. rewrite Hh, Hd, Hn, Hr, Hm.
  split; [exact S1 | ]. split; [exact S2 | ].
  destruct (OceanSystem.lodGrid s') as [[r' g'] | ],
           (OceanSystem.lodGrid s) as [[r g] | ]; try contradiction.
  - destruct Hg as [-> Hmat]. split; [exact S3 | ].
    intros rg g0 [= <- <-]. rewrite Hmat. now apply (S4 r g).
  - split; [exact S3 | ]. intros rg g0 H. discriminate H.
Qed.

Lemma applyOceanParams_same (s : OceanSystem.t) :
  sameResources s (OceanSystem.applyOceanParams s).
Proof.
  destruct (applyOceanParams_resources s) as [H1 [H2 [H3 [H4 [H5 [_ [_ [_ H6]]]]]]]].
  unfold sameResources. repeat split; assumption.
Qed.

Lemma set_params_same (p : OceanSystem.Params) (s : OceanSystem.t) :
  sameResources s (OceanSystem.set_params p s).
Proof.
  unfold sameResources, heldRefs. cbn. repeat split.
  destruct (OceanSystem.lodGrid s) as [[r g] | ]; [split; reflexivity | exact I].
Qed.

Lemma sameResources_trans (s1 s2 s3 : OceanSystem.t) :
  sameResources s1 s2 -> sameResources s2 s3 -> sameResources s1 s3.
Proof.
  intros [A1 [A2 [A3 [A4 [A5 A6]]]]] [B1 [B2 [B3 [B4 [B5 B6]]]]].
  unfold sameResources.
  rewrite B1, B2, B3, B4, B5, A1, A2, A3, A4, A5. repeat split.
  destruct (OceanSystem.lodGrid s3) as [[r3 g3] | ],
           (OceanSystem.lodGrid s2) as [[r2 g2] | ],
           (OceanSystem.lodGrid s1) as [[r1 g1] | ]; try contradiction; try exact I.
  destruct A6 as [E1 E2], B6 as [E3 E4].
  split; [now rewrite E3 | now rewrite E4].
Qed.

Lemma setParam_same (k : string) (v : Q) (s : OceanSystem.t) :
  sameResources s (OceanSystem.setParam k v s).
Proof.
  unfold OceanSystem.setParam.
  set (s1 := OceanSystem.set_params _ s).
  assert (H1 : sameResources s s1) by apply set_params_same.
  destruct (OceanSystem.uniforms s1); [ | exact H1].
  destruct (OceanSystem.fft s1); [ | exact H1].
  destruct (existsb _ _); [ | exact H1].
  eapply sameResources_trans; [exact H1 | apply applyOceanParams_same].
Qed.

Lemma update_same (dt elapsed : Q) (l : option OceanSystem.Lighting)
  (cam : OceanLODGrid.Vec3) (st : OceanSystem.t * OceanSystem.FrameUniforms) :
  sameResources (fst st) (fst (fst (OceanSystem.update dt elapsed l cam st))).
Proof.
  destruct st as [s fu]. unfold OceanSystem.update. cbn [fst].
  destruct (OceanSystem.fft s) as [[rf f] | ] eqn:Hf; [ | apply sameResources_refl].
  destruct (OceanSystem.uniforms s) as [u | ]; [ | apply sameResources_refl].
  destruct (OceanSystem.lodGrid s) as [[rg g] | ] eqn:Hg; [ | apply sameResources_refl].
  destruct (OceanFFT.update dt f) as [f' ps]. cbn [fst].
  unfold sameResources, heldRefs. cbn. rewrite Hf, Hg. repeat split.
Qed.

Lemma rebuild_sound (name : string) (s : OceanSystem.t) :
  soundResources s -> soundResources (fst (OceanSystem.rebuild name s)).
Proof.
  intros [S1 [S2 [S3 S4]]].
  destruct (rebuild_resources name s) as [Hd [Hr [Hh Hl]]].
  set (s' := fst (OceanSystem.rebuild name s)) in *.
  set (r0 := OceanSystem.nextRef s) in *.
  assert (Hold : NoDup (OceanSystem.disposed s ++ heldRefs s)).
  { eapply Permutation_NoDup; [apply Permutation_app_comm | exact S1]. }
  assert (Holdlt : Forall (fun r => (r < r0)%nat) (OceanSystem.disposed s ++ heldRefs s)).
  { apply Forall_app. apply Forall_app in S2. tauto. }
  assert (Hnew : NoDup (heldRefs s')
                 /\ Forall (fun r => (r0 <= r < OceanSystem.nextRef s')%nat) (heldRefs s')
                 /\ (r0 <= OceanSystem.nextRef s')%nat).
  { destruct Hh as [[-> ->] | [[-> ->] | [-> ->]]].
    - repeat split; [constructor | constructor | lia].
    - repeat split; [ | repeat constructor; lia | lia].
      repeat constructor; cbn; intuition lia.
    - repeat split; [ | repeat constructor; lia | lia].
      repeat constructor; cbn; intuition lia. }
  destruct Hnew as [Hnd [Hrange Hle]].
  unfold soundResources. rewrite Hd.
  split; [ | split; [ | split; [ | exact Hl]]].
  - apply NoDup_app; [exact Hnd | exact Hold | ].
    intros a Ha Hb.
    rewrite Forall_forall in Hrange, Holdlt.
    specialize (Hrange a Ha). specialize (Holdlt a Hb). lia.
  - apply Forall_app. split.
    + eapply Forall_impl; [ | exact Hrange]. cbn. intros a Ha. lia.
    + eapply Forall_impl; [ | exact Holdlt]. cbn. intros a Ha. lia.
  - rewrite Hr, S3.
    destruct (OceanSystem.lodGrid s) as [[rg g] | ]; cbn;
      rewrite ?Nat.eqb_refl; reflexivity.
Qed.

Lemma dispose_sound (s : OceanSystem.t) :
  soundResources s -> soundResources (OceanSystem.dispose s).
Proof.
  intros [S1 [S2 [S3 S4]]]. unfold OceanSystem.dispose.
  destruct (teardown_releases_held s) as [Hh [Hd [Hn [_ [Hg [_ Hr]]]]]].
  unfold soundResources. rewrite Hh, Hd, Hn, Hg, Hr, S3. cbn [app].
  split; [ | split; [ | split]].
  - eapply Permutation_NoDup; [apply Permutation_app_comm | exact S1].
  - apply Forall_app. apply Forall_app in S2. tauto.
  - destruct (OceanSystem.lodGrid s) as [[rg g] | ]; cbn;
      rewrite ?Nat.eqb_refl; reflexivity.
  - intros rg g H. discriminate H.
Qed.

Lemma call_sound (c : Call) (st : OceanSystem.t * OceanSystem.FrameUniforms) :
  soundResources (fst st) -> soundResources (fst (call c st)).
Proof.
  intros Hs. destruct c as [name | name | k v | dt el l cam | ]; cbn [call fst].
  - now apply rebuild_sound.
  - unfold OceanSystem.setQualityPreset.
    destruct (name =? OceanSystem.qualityPreset (fst st))%string;
      [exact Hs | now apply rebuild_sound].
  - eapply sameResources_sound; [apply setParam_same | exact Hs].
  - eapply sameResources_sound; [apply update_same | exact Hs].
  - now apply dispose_sound.
Qed.

(** X12 (resource discipline).  Whatever preset name and parameters an
    [OceanSystem] is constructed with, and whatever sequence of [rebuild],
    [setQualityPreset], [setParam], [update] and [dispose] calls follows
    (exceptions caught), no object is ever held twice, disposed twice or
    held after it was disposed; the root group contains exactly the group of
    the grid currently held; and that grid draws with the material currently
    held. *)
Theorem OceanSystem_resources_stay_sound
  (qualityPreset : option string) (mergedParams : OceanSystem.Params)
  (fu : OceanSystem.FrameUniforms) (cs : list Call) :
  soundResources
    (fst (calls cs (fst (OceanSystem.constructor qualityPreset mergedParams), fu))).
Proof.
  assert (Hinit : soundResources (fst (OceanSystem.constructor qualityPreset mergedParams))).
  { unfold OceanSystem.constructor. apply rebuild_sound.
    unfold soundResources, OceanSystem.initialState, heldRefs. cbn.
    repeat split; try constructor. intros rg g H. discriminate H. }
  revert Hinit.
  generalize (fst (OceanSystem.constructor qualityPreset mergedParams)) as s.
  revert fu. induction cs as [ | c cs IH]; intros fu s Hs; [exact Hs | ].
  cbn [calls].
  destruct (call c (s, fu)) as [s1 fu1] eqn:Hc.
  apply IH. change s1 with (fst (s1, fu1)). rewrite <- Hc.
  now apply (call_sound c (s, fu)).
Qed.

(** ** OceanSystem: parameters and what is shown *)

Lemma applyOceanParams_inSync (s : OceanSystem.t) :
  inSync (OceanSystem.applyOceanParams s).
Proof.
  unfold inSync, OceanSystem.applyOceanParams.
  destruct (OceanSystem.fft s) as [[rf0 f0] | ] eqn:Hf;
    [ | intros rf f u rg g H; rewrite Hf in H; discriminate H].
  destruct (OceanSystem.uniforms s) as [u0 | ] eqn:Hu;
    [ | intros rf f u rg g _ H; rewrite Hu in H; discriminate H].
  cbv zeta.
  destruct (OceanSystem.lodGrid _) as [[rg0 g0] | ] eqn:Hg.
  - cbn. intros rf f u rg g [= <- <-] [= <-] [= <- <-].
    cbn. repeat split; reflexivity.
  - intros rf f u rg g _ _ H. cbn in Hg, H. rewrite Hg in H. discriminate H.
Qed.

Lemma teardown_lodGrid (s : OceanSystem.t) :
  OceanSystem.lodGrid (OceanSystem.teardown s) = None.
Proof. destruct (teardown_releases_held s) as [_ [_ [_ [_ [H _]]]]]. exact H. Qed.

Lemma no_grid_inSync (s : OceanSystem.t) :
  OceanSystem.lodGrid s = None -> inSync s.
Proof. intros H rf f u rg g _ _ Hg. rewrite H in Hg. discriminate Hg. Qed.

Lemma rebuild_inSync (name : string) (s : OceanSystem.t) :
  inSync (fst (OceanSystem.rebuild name s)).
Proof.
  unfold OceanSystem.rebuild.
  set (s0 := OceanSystem.teardown _).
  assert (Hg0 : OceanSystem.lodGrid s0 = None) by apply teardown_lodGrid.
  clearbody s0. cbv zeta.
  destruct (OceanFFT.constructor _) as [f | e]; [ | now apply no_grid_inSync].
  unfold OceanSystem.alloc. cbv beta iota zeta.
  destruct (OceanLODGrid.constructor _) as [g | e].
  - cbn [fst]. apply applyOceanParams_inSync.
  - cbn [fst]. apply no_grid_inSync. cbn. exact Hg0.
Qed.

Lemma assignParam_other (k : string) (v : Q) (p : OceanSystem.Params) :
  existsb (String.eqb k) OceanSystem.appliedKeys = false ->
  let p' := OceanSystem.assignParam k v p in
  OceanSystem.windSpeed p' = OceanSystem.windSpeed p
  /\ OceanSystem.windDirection p' = OceanSystem.windDirection p
  /\ OceanSystem.choppiness p' = OceanSystem.choppiness p
  /\ OceanSystem.foamIntensity p' = OceanSystem.foamIntensity p
  /\ OceanSystem.lodScale p' = OceanSystem.lodScale p
  /\ OceanSystem.reflectionStrength p' = OceanSystem.reflectionStrength p
  /\ OceanSystem.reflectionDistortion p' = OceanSystem.reflectionDistortion p
  /\ OceanSystem.sunScatterStrength p' = OceanSystem.sunScatterStrength p
  /\ OceanSystem.foamScale p' = OceanSystem.foamScale p.
Proof.
  unfold OceanSystem.appliedKeys. cbn [existsb]. intros H.
  repeat (apply orb_false_elim in H; destruct H as [? H]).
  cbn. repeat match goal with E : (k =? _)%string = false |- _ => rewrite E; clear E end.
  repeat split; reflexivity.
Qed.

Lemma setParam_inSync (k : string) (v : Q) (s : OceanSystem.t) :
  inSync s -> inSync (OceanSystem.setParam k v s).
Proof.
  intros Hs. unfold OceanSystem.setParam. cbv zeta.
  destruct (OceanSystem.uniforms _) as [u0 | ] eqn:Hu; cycle 1.
  { intros rf f u rg g _ H. cbn in Hu, H. rewrite Hu in H. discriminate H. }
  destruct (OceanSystem.fft _) as [[rf0 f0] | ] eqn:Hf; cycle 1.
  { intros rf f u rg g H. cbn in Hf, H. rewrite Hf in H. discriminate H. }
  destruct (existsb _ _) eqn:Hk; [apply applyOceanParams_inSync | ].
  destruct (assignParam_other k v (OceanSystem.params s) Hk)
    as [E1 [E2 [E3 [E4 [E5 [E6 [E7 [E8 E9]]]]]]]].
  intros rf f u rg g Hf' Hu' Hg'. cbn in Hf', Hu', Hg'.
  specialize (Hs rf f u rg g Hf' Hu' Hg'). cbv zeta in Hs |- *.
  cbn [OceanSystem.params OceanSystem.set_params].
  rewrite E1, E2, E3, E4, E5, E6, E7, E8, E9. exact Hs.
Qed.

Lemma update_inSync (dt elapsed : Q) (l : option OceanSystem.Lighting)
  (cam : OceanLODGrid.Vec3) (st : OceanSystem.t * OceanSystem.FrameUniforms) :
  inSync (fst st) -> inSync (fst (fst (OceanSystem.update dt elapsed l cam st))).
Proof.
  destruct st as [s fu]. cbn [fst]. intros Hs. unfold OceanSystem.update.
  destruct (OceanSystem.fft s) as [[rf0 f0] | ] eqn:Hf; [ | exact Hs].
  destruct (OceanSystem.uniforms s) as [u0 | ] eqn:Hu; [ | exact Hs].
  destruct (OceanSystem.lodGrid s) as [[rg0 g0] | ] eqn:Hg; [ | exact Hs].
  pose proof (update_keeps_wind dt f0) as Hw. cbv zeta in Hw.
  destruct (OceanFFT.update dt f0) as [f' ps]. cbn [fst] in Hw |- *.
  destruct Hw as [W1 [W2 [W3 W4]]].
  specialize (Hs rf0 f0 u0 rg0 g0 Hf Hu Hg). cbv zeta in Hs.
  intros rf f u rg g. cbn. rewrite Hu.
  intros [= <- <-] [= <-] [= <- <-]. cbn.
  rewrite W1, W2, W3, W4. exact Hs.
Qed.

Lemma call_inSync (c : Call) (st : OceanSystem.t * OceanSystem.FrameUniforms) :
  inSync (fst st) -> inSync (fst (call c st)).
Proof.
  intros Hs. destruct c as [name | name | k v | dt el l cam | ]; cbn [call fst].
  - apply rebuild_inSync.
  - unfold OceanSystem.setQualityPreset.
    destruct (name =? OceanSystem.qualityPreset (fst st))%string;
      [exact Hs | apply rebuild_inSync].
  - now apply setParam_inSync.
  - now apply update_inSync.
  - apply no_grid_inSync. apply teardown_lodGrid.
Qed.

(** X13 (parameters are shown).  After construction and any sequence of
    [rebuild], [setQualityPreset], [setParam], [update] and [dispose] calls
    (exceptions caught), whenever the system holds a simulation, a material
    and a grid, they show the current [params]: the simulation's wind speed
    is [max(0.01, params.windSpeed)], its direction is the parameter in
    radians, its wind vector has that speed and direction, its choppiness
    is [max(0, params.choppiness)]; the foam, reflection and scatter
    uniforms equal their parameters; and the grid is scaled by
    [params.lodScale] clamped to [0.5, 2.5]. *)
Theorem OceanSystem_params_are_shown
  (qualityPreset : option string) (mergedParams : OceanSystem.Params)
  (fu : OceanSystem.FrameUniforms) (cs : list Call) :
  inSync
    (fst (calls cs (fst (OceanSystem.constructor qualityPreset mergedParams), fu))).
Proof.
  assert (Hinit : inSync (fst (OceanSystem.constructor qualityPreset mergedParams))).
  { unfold OceanSystem.constructor. apply rebuild_inSync. }
  revert Hinit.
  generalize (fst (OceanSystem.constructor qualityPreset mergedParams)) as s.
  revert fu. induction cs as [ | c cs IH]; intros fu s Hs; [exact Hs | ].
  cbn [calls].
  destruct (call c (s, fu)) as [s1 fu1] eqn:Hc.
  apply IH. change s1 with (fst (s1, fu1)). rewrite <- Hc.
  now apply (call_inSync c (s, fu)).
Qed.
